(** * crunchy-proxy: connection handling and message relay

    A shallow embedding of [connect/connect.go] and [proxy/proxy.go]:
    [connect.Send], [connect.Receive], [connect.Connect],
    [Proxy.setupPools], [Proxy.getPool], [Proxy.returnPool] and
    [Proxy.HandleConnection].

    Go values are modelled as follows.
    - [[]byte] is [list byte]; [int] and [int32] are [Z] ([int32] with
      its wrap-around written out).
    - A [net.Conn] is a [Conn]; the nil interface value is [None].
    - An [error] is an [error]; the nil error is [None].
    - The network is scripted: every socket has a list of the results
      its successive [Read] calls will produce and a list of the results
      of its successive [Write] calls; a client and a backend are
      different sockets.
    - Everything the code does to the outside is appended to a trace of
      [event]s kept in the [World].
    - A run of Go code either produces a value or stops abnormally
      ([abort]): a run-time panic, a call that blocks for ever, or a
      loop that never exits.
    - A loop that receives is written by recursion on the reads that
      are still to come on its connection.
    Calls to the logger are left out, apart from the evaluation of their
    arguments where it can fault. The functions of the repository that
    the two files call but do not define are either modelled from the
    spec, and marked so, or taken as parameters ([Env]); of the latter
    only the results are modelled, not their own traffic. *)

From Stdlib Require Import ZArith Strings.Byte.
From stdpp Require Import base option list gmap strings fin_maps.

Local Open Scope Z_scope.

(** ** Go integers and slices *)

(** Two's-complement wrap-around of a 32-bit signed integer. *)
Definition wrap32 (z : Z) : Z := (z + 2 ^ 31) mod 2 ^ 32 - 2 ^ 31.

#[global] Instance byte_eq_dec : EqDecision byte := Byte.byte_eq_dec.

Definition byteZ (b : byte) : Z := Z.of_N (Byte.to_N b).

(** [binary.Read(reader, binary.BigEndian, &code)] on four bytes. *)
Definition int32_be (b0 b1 b2 b3 : byte) : Z :=
  wrap32 (Z.lor (Z.shiftl (byteZ b0) 24)
         (Z.lor (Z.shiftl (byteZ b1) 16)
         (Z.lor (Z.shiftl (byteZ b2) 8) (byteZ b3)))).

(** How a run of Go code can fail to produce a value. *)
Inductive abort : Set :=
| Panic   (* run-time panic: index out of range, nil dereference *)
| Blocks  (* blocked for ever on a read or on a channel *)
| Spins.  (* a loop that never exits *)

Inductive result (A : Type) : Type :=
| Ok (a : A)
| Abort (e : abort).

Arguments Ok {A} a.
Arguments Abort {A} e.

Definition rbind {A B} (r : result A) (f : A → result B) : result B :=
  match r with
  | Ok a => f a
  | Abort e => Abort e
  end.

(** [s[lo:]] for a slice whose length equals its capacity. *)
Definition slice_from (s : list byte) (lo : Z) : result (list byte) :=
  if decide (0 ≤ lo ≤ Z.of_nat (length s))
  then Ok (drop (Z.to_nat lo) s)
  else Abort Panic.

(** [s[:hi]] for a slice whose length equals its capacity. *)
Definition slice_to (s : list byte) (hi : Z) : result (list byte) :=
  if decide (0 ≤ hi ≤ Z.of_nat (length s))
  then Ok (take (Z.to_nat hi) s)
  else Abort Panic.

(** ** Package protocol *)

Module protocol.

(** Modelled from the spec: the constants of package [protocol] are
    not part of the sources at hand. The upgrade-request version code,
    the accept and refuse bytes of the SSL negotiation and the type
    tags of the terminate, query and ready-for-query messages are the
    well-known values of the PostgreSQL wire protocol. *)
Definition SSLRequestCode : Z := 80877103.
Definition SSLAllowed : byte := "S"%byte.
Definition SSLNotAllowed : byte := "N"%byte.
Definition TerminateMessageType : byte := "X"%byte.
Definition QueryMessageType : byte := "Q"%byte.
Definition ReadyForQueryMessageType : byte := "Z"%byte.

(** Modelled from the spec: [protocol.GetVersion] is missing; the
    codec's [messageVersion(frame)] is the 32-bit big-endian integer
    that follows the 4-byte length of a startup frame. *)
Definition GetVersion (message : list byte) : result Z :=
  match message with
  | _ :: _ :: _ :: _ :: b0 :: b1 :: b2 :: b3 :: _ => Ok (int32_be b0 b1 b2 b3)
  | _ => Abort Panic
  end.

(** Modelled from the spec: [protocol.GetMessageType] is missing; the
    codec's [messageType(frame)] is the one-byte type tag at the front
    of the frame. An empty slice has no first byte. *)
Definition GetMessageType (message : list byte) : result byte :=
  match message with
  | ty :: _ => Ok ty
  | [] => Abort Panic
  end.

(** Modelled from the spec: [protocol.GetMessageLength] is missing;
    the codec's [messageLength(frame)] is the value of the 32-bit
    big-endian length field that follows the type tag. *)
Definition GetMessageLength (message : list byte) : result Z :=
  match message with
  | _ :: b0 :: b1 :: b2 :: b3 :: _ => Ok (int32_be b0 b1 b2 b3)
  | _ => Abort Panic
  end.

(** [protocol.NewMessageBuffer([]byte{})] followed by writes. *)
Definition WriteByte (buf : list byte) (b : byte) : list byte := buf ++ [b].

Definition byte_of_Z (z : Z) : byte :=
  match Byte.of_N (Z.to_N (z mod 256)) with
  | Some b => b
  | None => x00
  end.

Definition WriteInt32 (buf : list byte) (z : Z) : list byte :=
  buf ++ [byte_of_Z (Z.shiftr z 24); byte_of_Z (Z.shiftr z 16);
          byte_of_Z (Z.shiftr z 8); byte_of_Z z].

End protocol.

(** ** The outside world *)

(** Go's [error] values as far as the code tells them apart: [io.EOF]
    and any other error, with the text its [Error()] method returns. *)
Inductive error : Set :=
| EOF
| OtherError (text : string).

#[global] Instance error_eq_dec : EqDecision error.
Proof. solve_decision. Defined.

(** A [net.Conn]: the socket it wraps, and whether it went through a TLS
    upgrade. *)
Record Conn : Set := mkConn { fd : nat; tls : bool }.

#[global] Instance Conn_eq_dec : EqDecision Conn.
Proof. solve_decision. Defined.

(** The result of one [Read] call: the bytes it put into the buffer and
    the error it returned. *)
Record ReadResult : Set := mkRead { data : list byte; rerr : option error }.

(** What the proxy does to its environment, in program order. *)
Inductive event : Set :=
| EDial (host : string)
| EWrite (c : Conn) (message : list byte)
| ERead (c : Conn)
| EClose (c : Conn)
| EUpgradeClient (c : Conn)
| EUpgradeServer (c : Conn)
| EGetPool (read : bool)
| EReturnPool (pool : nat) (read : bool)
| ENext (pool : nat)
| EReturn (pool : nat) (c : option Conn)
| EAdd (pool : nat) (c : option Conn)
| ELock
| EStats (nodeName : string) (count : Z)
| EUnlock.

#[global] Instance event_eq_dec : EqDecision event.
Proof. solve_decision. Defined.

(** Modelled from the spec: type [pool.Pool] is missing. A pool has the
    name of its node and a free set of connections; [next] draws the
    next connection from the free set and [returnConnection] gives a
    drawn connection back to it. *)
Record Pool : Set := mkPool { Name : string; connections : list (option Conn) }.

(** [size] is the length of the buffers the code allocates with
    [make([]byte, 4096)]. *)
Definition size : nat := 4096.

Record World : Type := mkWorld {
  dials : list (Conn + error);              (* results of the coming net.Dial calls *)
  reads : gmap nat (list ReadResult);       (* per socket: results of the coming Read calls *)
  writes : gmap nat (list (option error));  (* per socket: results of the coming Write calls *)
  heap : gmap nat Pool;                     (* the *pool.Pool objects *)
  writePools : list nat;                    (* p.writePools, a channel of *pool.Pool *)
  readPools : list nat;                     (* p.readPools *)
  Stats : gmap string Z;                    (* p.Stats, a map[string]int32 *)
  locked : bool;                            (* p.lock *)
  trace : list event
}.

Definition emit (e : event) (w : World) : World :=
  mkWorld (dials w) (reads w) (writes w) (heap w) (writePools w) (readPools w)
          (Stats w) (locked w) (trace w ++ [e]).

(** ** Computations over the world *)

Definition M (A : Type) : Type := World → result A * World.

#[global] Instance M_ret : MRet M := λ A a w, (Ok a, w).
#[global] Instance M_bind : MBind M := λ A B f m w,
  match m w with
  | (Ok a, w') => f a w'
  | (Abort e, w') => (Abort e, w')
  end.

Definition fail {A} (e : abort) : M A := λ w, (Abort e, w).
Definition lift {A} (r : result A) : M A := λ w, (r, w).
Definition get : M World := λ w, (Ok w, w).
Definition put (w : World) : M unit := λ _, (Ok tt, w).
Definition log (e : event) : M unit := λ w, (Ok tt, emit e w).

#[global] Instance result_ret : MRet result := λ A a, Ok a.
#[global] Instance result_bind : MBind result := λ A B f r, rbind r f.

(** A method call on a nil interface value or through a nil pointer
    panics. *)
Definition nonnil {A} (x : option A) : M A :=
  match x with
  | Some a => mret a
  | None => fail Panic
  end.

(** [err.Error()]. *)
Definition Error_text (err : option error) : result string :=
  match err with
  | Some EOF => Ok "EOF"%string
  | Some (OtherError text) => Ok text
  | None => Abort Panic
  end.

Definition set_dials (x : list (Conn + error)) (w : World) : World :=
  mkWorld x (reads w) (writes w) (heap w) (writePools w) (readPools w)
          (Stats w) (locked w) (trace w).
Definition set_reads (x : gmap nat (list ReadResult)) (w : World) : World :=
  mkWorld (dials w) x (writes w) (heap w) (writePools w) (readPools w)
          (Stats w) (locked w) (trace w).
Definition set_writes (x : gmap nat (list (option error))) (w : World) : World :=
  mkWorld (dials w) (reads w) x (heap w) (writePools w) (readPools w)
          (Stats w) (locked w) (trace w).
Definition set_heap (x : gmap nat Pool) (w : World) : World :=
  mkWorld (dials w) (reads w) (writes w) x (writePools w) (readPools w)
          (Stats w) (locked w) (trace w).
Definition set_writePools (x : list nat) (w : World) : World :=
  mkWorld (dials w) (reads w) (writes w) (heap w) x (readPools w)
          (Stats w) (locked w) (trace w).
Definition set_readPools (x : list nat) (w : World) : World :=
  mkWorld (dials w) (reads w) (writes w) (heap w) (writePools w) x
          (Stats w) (locked w) (trace w).
Definition set_Stats (x : gmap string Z) (w : World) : World :=
  mkWorld (dials w) (reads w) (writes w) (heap w) (writePools w) (readPools w)
          x (locked w) (trace w).
Definition set_locked (x : bool) (w : World) : World :=
  mkWorld (dials w) (reads w) (writes w) (heap w) (writePools w) (readPools w)
          (Stats w) x (trace w).

(** ** The network *)

(** [net.Dial("tcp", host)]. *)
Definition Dial (host : string) : M (Conn + error) :=
  log (EDial host);;
  w ← get;
  match dials w with
  | [] => fail Blocks
  | r :: rest => put (set_dials rest w);; mret r
  end.

(** [connection.Write(message)]: the error it returns. A socket whose
    script of write results is used up accepts every write. *)
Definition Conn_Write (connection : Conn) (message : list byte) : M (option error) :=
  log (EWrite connection message);;
  w ← get;
  match writes w !! fd connection with
  | Some (r :: rest) =>
      put (set_writes (<[fd connection := rest]> (writes w)) w);; mret r
  | _ => mret None
  end.

(** What a buffer made by [make([]byte, 4096)] holds after a [Read] that
    delivered [r], with the count and the error of that [Read]. *)
Definition received (r : ReadResult) : list byte * Z * option error :=
  let d := take size (data r) in
  (d ++ replicate (size - length d)%nat x00, Z.of_nat (length d), rerr r).

(** [buffer := make([]byte, 4096); n, err := connection.Read(buffer)].
    A socket whose script of read results is used up never delivers
    anything again. *)
Definition Conn_Read (connection : Conn) : M (list byte * Z * option error) :=
  log (ERead connection);;
  w ← get;
  match reads w !! fd connection with
  | Some (r :: rest) =>
      put (set_reads (<[fd connection := rest]> (reads w)) w);; mret (received r)
  | _ => fail Blocks
  end.

(** [connection.Close()]. *)
Definition Conn_Close (connection : Conn) : M unit := log (EClose connection).

(** ** Configuration and the collaborators outside the sources *)

Inductive NodeRole : Set := NODE_ROLE_MASTER | NODE_ROLE_REPLICA.

#[global] Instance NodeRole_eq_dec : EqDecision NodeRole.
Proof. solve_decision. Defined.

(** [common.Node]. *)
Record Node : Set := mkNode { HostPort : string; Role : NodeRole }.

(** Modelled from the spec: the annotation keys of package [proxy] are
    declared outside the sources at hand; a query carries the three
    annotations read-only, begins a block and ends a block. *)
Inductive AnnotationType : Set := ReadAnnotation | StartAnnotation | EndAnnotation.

(** The configuration and the functions of this repository that
    [connect.go] and [proxy.go] call but do not define; the code is
    verified for every choice of them. *)
Record Env : Type := mkEnv {
  (* config.GetBool("credentials.ssl.enable"), config.GetCredentials().SSL.Enable *)
  ssl_enable : bool;
  (* config.GetNodes(), in the order the range statement visits them *)
  GetNodes : list (string * Node);
  (* config.GetPoolCapacity() *)
  GetPoolCapacity : Z;
  (* protocol.CreateStartupMessage(username, database, options) *)
  startupMessage : list byte;
  (* connect.HandleAuthenticationRequest(connection, response) *)
  HandleAuthenticationRequest : Conn → list byte → bool;
  (* connect.ValidateClient(message) *)
  ValidateClient : list byte → bool;
  (* connect.AuthenticateClient(client, message, length) *)
  AuthenticateClient : Conn → list byte → Z → bool * option error;
  (* the bytes of pgError.GetMessage() for the fatal
     invalid-authorization-specification error *)
  pgErrorMessage : list byte;
  (* getAnnotations(message)[key]; a key that is not in the map reads false *)
  getAnnotations : list byte → AnnotationType → bool
}.

(** ** Package connect *)

Module connect.
Section with_env.
Context (env : Env).

(** [func Send(connection net.Conn, message []byte) (int, error)]; no
    caller looks at the count. *)
Definition Send (connection : option Conn) (message : list byte) : M (option error) :=
  c ← nonnil connection;
  Conn_Write c message.

(** [func Receive(connection net.Conn) ([]byte, int, error)]. *)
Definition Receive (connection : option Conn) : M (list byte * Z * option error) :=
  c ← nonnil connection;
  Conn_Read c.

(** The reads still to come on a connection, and [Receive] on a
    connection whose next read is [r], with [rest] to come after it, or
    on which nothing is to come ([Receive_coming] below): the loops that
    receive are written by recursion on the reads to come. *)
Definition coming (connection : option Conn) : M (list ReadResult) :=
  c ← nonnil connection;
  w ← get;
  mret (default [] (reads w !! fd c)).

Definition Receive_next (connection : option Conn) (r : ReadResult)
    (rest : list ReadResult) : M (list byte * Z * option error) :=
  c ← nonnil connection;
  log (ERead c);;
  w ← get;
  put (set_reads (<[fd c := rest]> (reads w)) w);;
  mret (received r).

Definition Receive_none (connection : option Conn) : M (list byte * Z * option error) :=
  c ← nonnil connection;
  log (ERead c);;
  fail Blocks.

(** Modelled from the spec: [connect.UpgradeClientConnection] is
    missing; on acceptance the negotiator performs the upgrade handshake
    and returns the encrypted connection. *)
Definition UpgradeClientConnection (host : string) (connection : Conn) : M Conn :=
  log (EUpgradeClient connection);;
  mret (mkConn (fd connection) true).

(** Modelled from the spec: [connect.UpgradeServerConnection] is
    missing; the server-side half of the upgrade handshake is performed
    on the same logical connection if acceptance was sent, that is if
    the proxy's own SSL flag is enabled. *)
Definition UpgradeServerConnection (client : Conn) : M Conn :=
  if ssl_enable env
  then log (EUpgradeServer client);; mret (mkConn (fd client) true)
  else mret client.

(** [func Connect(host string) (net.Conn, error)]. *)
Definition Connect (host : string) : M (option Conn * option error) :=
  r ← Dial host;
  match r with
  | inr err => mret (None, Some err)
  | inl connection =>
      if ssl_enable env then
        (* Create the SSL request message. *)
        let message := protocol.WriteInt32 (protocol.WriteInt32 [] 8)
                                           protocol.SSLRequestCode in
        (* Send the SSL request message. *)
        err ← Conn_Write connection message;
        match err with
        | Some err => mret (None, Some err)
        | None =>
            (* Receive SSL response message. *)
            '(response, _, err) ← Conn_Read connection;
            match err with
            | Some err => mret (None, Some err)
            | None =>
                (* len(response) > 0 && response[0] != 'S' *)
                if bool_decide (0 < length response)%nat
                   && negb (bool_decide (response !! 0%nat = Some "S"%byte))
                then
                  Conn_Close connection;;
                  mret (Some connection, None)
                else
                  connection ← UpgradeClientConnection host connection;
                  mret (Some connection, None)
            end
        end
      else mret (Some connection, None)
  end.

End with_env.
End connect.

(** ** Package proxy *)

Module proxy.
Section with_env.
Context (env : Env).

(** Modelled from the spec: [pool.NewPool(name, capacity)] is missing;
    a pool is created empty for one node. *)
Definition NewPool (name : string) (capacity : Z) : M nat :=
  w ← get;
  let p := fresh (dom (heap w)) in
  put (set_heap (<[p := mkPool name []]> (heap w)) w);;
  mret p.

Definition deref (cp : option nat) : M (nat * Pool) :=
  p ← nonnil cp;
  w ← get;
  pl ← nonnil (heap w !! p);
  mret (p, pl).

(** Modelled from the spec: [Pool.Add] is missing; seeding adds a
    connection to the free set of the node's pool. *)
Definition Pool_Add (cp : option nat) (connection : option Conn) : M unit :=
  '(p, pl) ← deref cp;
  log (EAdd p connection);;
  w ← get;
  let pl := mkPool (Name pl) (connections pl ++ [connection]) in
  put (set_heap (<[p := pl]> (heap w)) w).

(** Modelled from the spec: [Pool.Next] is missing; [next] returns the
    next connection to use from the node's pool. An empty free set
    leaves the caller waiting. *)
Definition Pool_Next (cp : option nat) : M (option Conn) :=
  '(p, pl) ← deref cp;
  log (ENext p);;
  match connections pl with
  | [] => fail Blocks
  | c :: rest =>
      w ← get;
      put (set_heap (<[p := mkPool (Name pl) rest]> (heap w)) w);;
      mret c
  end.

(** Modelled from the spec: [Pool.Return] is missing;
    [returnConnection] gives a drawn connection back to the free set of
    its node, eligible for later [next] calls. *)
Definition Pool_Return (cp : option nat) (connection : option Conn) : M unit :=
  '(p, pl) ← deref cp;
  log (EReturn p connection);;
  w ← get;
  let pl := mkPool (Name pl) (connections pl ++ [connection]) in
  put (set_heap (<[p := pl]> (heap w)) w).

(** [cp.Name]. *)
Definition Pool_Name (cp : option nat) : M string :=
  '(_, pl) ← deref cp;
  mret (Name pl).

(** [func (p *Proxy) getPool(read bool) *pool.Pool]: a receive on the
    channel of read or write pools. *)
Definition getPool (read : bool) : M (option nat) :=
  log (EGetPool read);;
  w ← get;
  if read then
    match readPools w with
    | [] => fail Blocks
    | pl :: rest => put (set_readPools rest w);; mret (Some pl)
    end
  else
    match writePools w with
    | [] => fail Blocks
    | pl :: rest => put (set_writePools rest w);; mret (Some pl)
    end.

(** [func (p *Proxy) returnPool(pl *pool.Pool, read bool)]: a send on
    the channel of read or write pools. *)
Definition returnPool (pl : option nat) (read : bool) : M unit :=
  p ← nonnil pl;
  log (EReturnPool p read);;
  w ← get;
  if read
  then put (set_readPools (readPools w ++ [p]) w)
  else put (set_writePools (writePools w ++ [p]) w).

(** [p.lock.Lock()] and [p.lock.Unlock()]. *)
Definition Lock : M unit :=
  w ← get;
  if locked w then fail Blocks
  else put (set_locked true w);; log ELock.

Definition Unlock : M unit :=
  w ← get;
  if locked w then put (set_locked false w);; log EUnlock
  else fail Panic.

(** [p.Stats[nodeName] += 1] on a [map[string]int32]: a key that is not
    in the map reads 0, and the sum wraps around. *)
Definition Stats_increment (nodeName : string) : M unit :=
  w ← get;
  let count := wrap32 (default 0 (Stats w !! nodeName) + 1) in
  put (set_Stats (<[nodeName := count]> (Stats w)) w);;
  log (EStats nodeName count).

(** The variables of [HandleConnection] that live across the iterations
    of its loop. *)
Record Session : Set := mkSession {
  statementBlock : bool;
  cp : option nat;         (* the connection pool in use *)
  backend : option Conn;   (* the backend connection in use *)
  read : bool;
  end_ : bool;
  nodeName : string
}.

(** Their values when the loop is entered: Go's zero values. *)
Definition Session0 : Session := mkSession false None None false false "".

(** The annotations of a query set [statementBlock], [end] and [read]. *)
Definition annotate (s : Session) (annotations : AnnotationType → bool) : Session :=
  let s :=
    if annotations StartAnnotation then
      mkSession true (cp s) (backend s) (read s) (end_ s) (nodeName s)
    else if annotations EndAnnotation then
      mkSession false (cp s) (backend s) (read s) true (nodeName s)
    else s in
  mkSession (statementBlock s) (cp s) (backend s) (annotations ReadAnnotation)
            (end_ s) (nodeName s).

(** [!statementBlock && !end || cp == nil || backend == nil]. *)
Definition fetch_backend (s : Session) : bool :=
  negb (statementBlock s) && negb (end_ s)
  || bool_decide (cp s = None) || bool_decide (backend s = None).

(** The body of that [if]: fetch a new backend to receive the message. *)
Definition fetch (s : Session) : M Session :=
  cp ← getPool (read s);
  backend ← Pool_Next cp;
  nodeName ← Pool_Name cp;
  returnPool cp (read s);;
  mret (mkSession (statementBlock s) cp backend (read s) (end_ s) nodeName).

(** The loop that examines the messages in the buffer:
    [for start := 0; start < length; { ... }]. It is run with a bound
    on the number of iterations, and [Spins] is the answer when the
    bound is reached. With the bound that [drain_iteration] gives it the
    loop has come back to a position it has been at, and never ends
    ([scan_bound] below). *)
Fixpoint scan (fuel : nat) (message : list byte) (length start : Z)
    (messageType : byte) : result byte :=
  if bool_decide (start < length) then
    match fuel with
    | O => Abort Spins
    | S fuel =>
        rest ← slice_from message start;
        messageType ← protocol.GetMessageType rest;
        messageLength ← protocol.GetMessageLength rest;
        scan fuel message length (start + messageLength + 1) messageType
    end
  else Ok messageType.

(** One iteration of [for !done { ... }], after the [Receive]. The two
    assignments [done = true] are there as the code has them; the last
    assignment to [done] decides. *)
Definition drain_iteration (client : option Conn)
    (received : list byte * Z * option error) : M bool :=
  let '(message, length, err) := received in
  let done := bool_decide (err ≠ None) in
  head ← lift (slice_to message length);
  messageType ← lift (protocol.GetMessageType head);
  messageType ← lift (scan (S (Z.to_nat length)) message length 0 messageType);
  err ← connect.Send client head;
  let done := bool_decide (err ≠ None) || done in
  let done := bool_decide (messageType = protocol.ReadyForQueryMessageType) in
  mret done.

(** [for !done { ... }], entered with [done] false, by recursion on the
    coming reads of the backend. *)
Fixpoint drain (client backend : option Conn) (script : list ReadResult)
    : M unit :=
  match script with
  | [] => _ ← connect.Receive_none backend; mret tt
  | r :: script =>
      received ← connect.Receive_next backend r script;
      done ← drain_iteration client received;
      if (done : bool) then mret tt else drain client backend script
  end.

(** The branch of the loop body for a query message. *)
Definition relay (client : option Conn) (s : Session) (message : list byte)
    (length : Z) : M Session :=
  let annotations := getAnnotations env message in
  let s := annotate s annotations in
  s ← (if fetch_backend s then fetch s else mret s);
  (* Update the query count for the node being used. *)
  Lock;;
  Stats_increment (nodeName s);;
  Unlock;;
  (* Relay message to client and backend *)
  head ← lift (slice_to message length);
  _ ← connect.Send (backend s) head;
  script ← connect.coming (backend s);
  drain client (backend s) script;;
  if negb (statementBlock s) then
    let s :=
      if end_ s then
        mkSession (statementBlock s) (cp s) (backend s) (read s) false (nodeName s)
      else s in
    (* Return the backend to the pool it belongs to. *)
    Pool_Return (cp s) (backend s);;
    mret s
  else mret s.

(** The loop [for { ... }] of [HandleConnection], by recursion on the
    coming reads of the client. Leaving the loop with [break] and
    leaving the function with [return] both end the session. *)
Fixpoint serve (client : option Conn) (s : Session) (script : list ReadResult)
    : M unit :=
  match script with
  | [] => _ ← connect.Receive_none client; mret tt
  | r :: script =>
      '(message, length, err) ← connect.Receive_next client r script;
      match err with
      | Some _ => mret tt
      | None =>
          messageType ← lift (protocol.GetMessageType message);
          if bool_decide (messageType = protocol.TerminateMessageType) then mret tt
          else if bool_decide (messageType = protocol.QueryMessageType) then
            s ← relay client s message length;
            serve client s script
          else serve client s script
      end
  end.

(** [HandleConnection] from the validation of the client on. *)
Definition session (client : Conn) (message : list byte) (length : Z) : M unit :=
  if negb (ValidateClient env message) then
    _ ← connect.Send (Some client) (pgErrorMessage env);
    mret tt
  else
    (* Authenticate the client against the appropriate backend. *)
    let '(authenticated, err) := AuthenticateClient env client message length in
    (* If the client could not authenticate then go no further. *)
    if bool_decide (err = Some EOF) then mret tt
    else if negb authenticated then
      _ ← lift (Error_text err);
      mret tt
    else
      (* Process the client messages for the life of the connection. *)
      script ← connect.coming (Some client);
      serve (Some client) Session0 script.

(** [func (p *Proxy) HandleConnection(client net.Conn)]. *)
Definition HandleConnection (client : Conn) : M unit :=
  (* Get the client startup message. *)
  '(message, length, err) ← connect.Receive (Some client);
  (* Get the protocol from the startup message. *)
  version ← lift (protocol.GetVersion message);
  (* Handle the case where the startup message was an SSL request. *)
  if bool_decide (version = protocol.SSLRequestCode) then
    let sslResponse :=
      if ssl_enable env
      then protocol.WriteByte [] protocol.SSLAllowed
      else protocol.WriteByte [] protocol.SSLNotAllowed in
    _ ← connect.Send (Some client) sslResponse;
    (* Upgrade the client connection if required. *)
    client ← connect.UpgradeServerConnection env client;
    (* Re-read the startup message from the client. *)
    '(message, length, err) ← connect.Receive (Some client);
    if bool_decide (err = Some EOF) then mret tt
    else session client message length
  else session client message length.

(** The loop [for i := 0; i < capacity; i++ { ... }] of [setupPools],
    with [n] iterations to go. *)
Fixpoint seed (name : string) (node : Node) (newPool : option nat) (n : nat)
    : M unit :=
  match n with
  | O => mret tt
  | S n =>
      (* Connect and authenticate *)
      '(connection, err) ← connect.Connect env (HostPort node);
      c ← nonnil connection;
      _ ← Conn_Write c (startupMessage env);
      '(response, _, _) ← Conn_Read c;
      let authenticated := HandleAuthenticationRequest env c response in
      match err with
      | Some _ => mret tt
      | None => Pool_Add newPool connection
      end;;
      seed name node newPool n
  end.

(** The loop [for name, node := range nodes { ... }] of [setupPools]. *)
Fixpoint seed_nodes (nodes : list (string * Node)) (capacity : Z) : M unit :=
  match nodes with
  | [] => mret tt
  | (name, node) :: nodes =>
      (* Create Pool for Node *)
      newPool ← NewPool name capacity;
      w ← get;
      (if bool_decide (Role node = NODE_ROLE_MASTER)
       then put (set_writePools (writePools w ++ [newPool]) w)
       else put (set_readPools (readPools w ++ [newPool]) w));;
      (* Create connections and add to pool. *)
      seed name node (Some newPool) (Z.to_nat capacity);;
      seed_nodes nodes capacity
  end.

(** [func (p *Proxy) setupPools()]. *)
Definition setupPools : M unit :=
  let nodes := GetNodes env in
  let capacity := GetPoolCapacity env in
  (* Initialize pool structures *)
  w ← get;
  put (set_writePools [] (set_readPools [] w));;
  seed_nodes nodes capacity.

(** [func NewProxy() *Proxy]. *)
Definition NewProxy : M unit :=
  w ← get;
  put (set_Stats ∅ (set_locked false w));;
  setupPools.

End with_env.
End proxy.

(** ** Vocabulary of the statements *)

(** The events a run [m] adds to the trace of [w]. *)
Definition events_of {A} (m : M A) (w : World) : list event :=
  drop (length (trace w)) (trace (m w).2).

Definition is_EWrite (e : event) : bool :=
  match e with EWrite _ _ => true | _ => false end.
Definition is_ERead (e : event) : bool :=
  match e with ERead _ => true | _ => false end.
Definition is_EStats (e : event) : bool :=
  match e with EStats _ _ => true | _ => false end.

(** The events of [connect.Send] and [connect.Receive]. *)
Definition is_io (e : event) : bool := is_EWrite e || is_ERead e.


(** A frame on the wire: a type tag, a 4-byte length field and a
    payload. *)
Record Frame : Set := mkFrame {
  tag : byte;
  len0 : byte; len1 : byte; len2 : byte; len3 : byte;
  payload : list byte
}.

Definition wire (f : Frame) : list byte :=
  tag f :: len0 f :: len1 f :: len2 f :: len3 f :: payload f.

(** The length field counts itself and the payload, not the type tag:
    this is the length to which the scan of [HandleConnection] adds 1
    "to account for the message type" to find the next frame. *)
Definition well_formed (f : Frame) : Prop :=
  int32_be (len0 f) (len1 f) (len2 f) (len3 f) = 4 + Z.of_nat (length (payload f)).

Definition batch (fs : list Frame) : list byte := concat (wire <$> fs).

(** The world after [Receive] took the next read off the script of
    [c], leaving [rest]. *)
Definition after_Receive (c : Conn) (rest : list ReadResult) (w : World) : World :=
  set_reads (<[fd c := rest]> (reads (emit (ERead c) w))) (emit (ERead c) w).

(** A relation between the world before a run and the world after it. *)
Definition run (R : World → World → Prop) {A} (m : M A) (w : World) : Prop :=
  R w (m w).2.

(** The run adds events that satisfy [P] to the trace. *)
Definition adds (P : event → bool) (w w' : World) : Prop :=
  ∃ evs, trace w' = trace w ++ evs ∧ Forall (λ e, P e = true) evs.

(** The run leaves the statistics, the pools and the lock alone. *)
Definition same_proxy (w w' : World) : Prop :=
  Stats w' = Stats w ∧ heap w' = heap w ∧ writePools w' = writePools w
  ∧ readPools w' = readPools w ∧ locked w' = locked w.

(** The run leaves the statistics and the lock alone. *)
Definition same_Stats (w w' : World) : Prop :=
  Stats w' = Stats w ∧ locked w' = locked w.

(** The events of [getPool], [Next] and [returnPool]. *)
Definition is_pool_call (e : event) : bool :=
  match e with
  | EGetPool _ | ENext _ | EReturnPool _ _ => true
  | _ => false
  end.


(** The world after the statistics of [nodeName] were updated under the
    lock. *)
Definition counted (nodeName : string) (w : World) : World :=
  let count := wrap32 (default 0 (Stats w !! nodeName) + 1) in
  emit EUnlock (set_locked false
    (emit (EStats nodeName count) (set_Stats (<[nodeName := count]> (Stats w))
       (emit ELock (set_locked true w))))).

(** [end = false]. *)
Definition reset_end (s : proxy.Session) : proxy.Session :=
  proxy.mkSession (proxy.statementBlock s) (proxy.cp s) (proxy.backend s)
                  (proxy.read s) false (proxy.nodeName s).

(** The choice of the backend at the head of [relay]. *)
Definition select (env : Env) (s : proxy.Session) (message : list byte) : M proxy.Session :=
  let s1 := proxy.annotate s (getAnnotations env message) in
  if proxy.fetch_backend s1 then proxy.fetch s1 else mret s1.

(** One iteration of the scan loop at [start]: the next position and the
    type it read. *)
Definition scan_step (message : list byte) (start : Z) : result (Z * byte) :=
  rest ← slice_from message start;
  messageType ← protocol.GetMessageType rest;
  messageLength ← protocol.GetMessageLength rest;
  Ok (start + messageLength + 1, messageType).

(** In the scan of [message] up to [length], position [v] leads to
    position [s] in one iteration or more. *)
Inductive leads (message : list byte) (length : Z) (v : Z) : Z → Prop :=
| leads_one s ty :
    v < length → scan_step message v = Ok (s, ty) → leads message length v s
| leads_more s s' ty :
    leads message length v s → s < length → scan_step message s = Ok (s', ty) →
    leads message length v s'.

(** [env] with another result of the authentication exchange with the
    backends. *)
Definition with_authentication (h : Conn → list byte → bool) (env : Env) : Env :=
  mkEnv (ssl_enable env) (GetNodes env) (GetPoolCapacity env) (startupMessage env) h
        (ValidateClient env) (AuthenticateClient env) (pgErrorMessage env)
        (getAnnotations env).

(** The bytes that a read delivered, as the drain loop forwards them:
    [message[:length]]. *)
Definition delivered (r : ReadResult) : result (list byte) :=
  let '(message, length, _) := received r in
  slice_to message length.

(** The type of the last frame that the drain loop scans in the buffer
    after a read. *)
Definition last_scanned (r : ReadResult) : result byte :=
  let '(message, length, _) := received r in
  head ← slice_to message length;
  messageType ← protocol.GetMessageType head;
  proxy.scan (S (Z.to_nat length)) message length 0 messageType.

(** The events of the relay of a query on a pinned backend: the update
    of the statistics under the lock, and the traffic. *)
Definition is_relay_event (e : event) : bool :=
  match e with
  | ELock | EStats _ _ | EUnlock | EWrite _ _ | ERead _ => true
  | _ => false
  end.

(** What the drain loop adds to the trace for the reads [used]: each
    read of the backend, followed by the write to the client of what
    the read delivered. *)
Definition forwarded (client backend : Conn) (used : list ReadResult) : list event :=
  used ≫= λ r, [ERead backend; EWrite client (take size (data r))].

(** A frame whose length field is -1. *)
Definition frameM (ty : byte) (tl : list byte) : Frame :=
  mkFrame ty xff xff xff xff tl.

(** A frame of which a read delivered the header and [payload f], which
    may be less than the payload that the length field announces. *)
Definition begun (f : Frame) : Prop :=
  4 + Z.of_nat (List.length (payload f))
  ≤ int32_be (len0 f) (len1 f) (len2 f) (len3 f).

(** The channel of pools that [getPool(read)] and [returnPool(_, read)]
    use. *)
Definition pools_of (read : bool) (w : World) : list nat :=
  if read then readPools w else writePools w.

(** The events of a relayed query after the choice of the backend and
    before the answer: the update of the statistics under the lock and
    the query sent to the backend. *)
Definition forward_events (nodeName : string) (b : Conn) (head : list byte)
    (w : World) : list event :=
  [ELock; EStats nodeName (wrap32 (default 0 (Stats w !! nodeName) + 1)); EUnlock;
   EWrite b head].

(** A read of the client that ends the session: it reports an error,
    or the buffer it filled begins with the type of a terminate
    message. *)
Definition closing (r : ReadResult) : bool :=
  match rerr r, protocol.GetMessageType (received r).1.1 with
  | Some _, _ => true
  | None, Ok messageType => bool_decide (messageType = protocol.TerminateMessageType)
  | None, Abort _ => false
  end.

(** A run that starts with the lock of the proxy free ends with it
    free. *)
Definition lock_free (w w' : World) : Prop := locked w = false → locked w' = false.

(** The events that the handler of a client connection can cause: all
    but a dial, a close, an addition to a pool and the upgrade of a
    connection to a backend. *)
Definition is_session_event (e : event) : bool :=
  match e with
  | EDial _ | EClose _ | EAdd _ _ | EUpgradeClient _ => false
  | _ => true
  end.

(** The pools [ps] that a run of [setupPools] made for [nodes]: one for
    each node in the order of the loop, under the name of the node and
    with [capacity] connections. *)
Definition pools_made (capacity : Z) (w' : World) (ps : list nat)
    (nodes : list (string * Node)) : Prop :=
  Forall2 (λ p nn, ∃ cs, heap w' !! p = Some (mkPool nn.1 cs)
                         ∧ List.length cs = Z.to_nat capacity) ps nodes.

(** Among the pools [ps] made for [nodes], those of the master nodes
    and those of the other nodes. *)
Definition masters (ps : list nat) (nodes : list (string * Node)) : list nat :=
  (filter (λ pn, Role pn.2.2 = NODE_ROLE_MASTER) (zip ps nodes)).*1.

Definition replicas (ps : list nat) (nodes : list (string * Node)) : list nat :=
  (filter (λ pn, Role pn.2.2 ≠ NODE_ROLE_MASTER) (zip ps nodes)).*1.

(** A read that is still to come on some socket. *)
Definition readable (w : World) (r : ReadResult) : Prop :=
  ∃ k rs, reads w !! k = Some rs ∧ r ∈ rs.

(** A run from a world whose coming reads are all among [avail] leaves
    such a world, and every message it writes is what one of the reads
    among [avail] delivered. *)
Definition relays_only (avail : ReadResult → Prop) (w w' : World) : Prop :=
  (∀ r, readable w r → avail r) →
  (∀ r, readable w' r → avail r)
  ∧ ∃ evs, trace w' = trace w ++ evs
      ∧ ∀ c m, EWrite c m ∈ evs → ∃ r, avail r ∧ m = take size (data r).

(** The same pool, with the same free connections in some order. *)
Definition same_pool (x y : option Pool) : Prop :=
  match x, y with
  | Some pl, Some pl' => Name pl' = Name pl ∧ connections pl' ≡ₚ connections pl
  | None, None => True
  | _, _ => False
  end.

(** The run has left every pool with the free connections it had, and
    the channels with the pools they had, in some order. *)
Definition same_pools (w w' : World) : Prop :=
  writePools w' ≡ₚ writePools w
  ∧ readPools w' ≡ₚ readPools w
  ∧ ∀ p, same_pool (heap w !! p) (heap w' !! p).

(** The run has drawn a backend from the pool selector: it took the
    first pool [p] off the channel for [read] and the first connection
    [b] off the free set of that pool, and the session now holds [p],
    [b] and the name of [p]. *)
Definition draws (read : bool) (w : World) (s' : proxy.Session) (w' : World) : Prop :=
  ∃ p others pl b free evs,
    pools_of read w = p :: others
    ∧ heap w !! p = Some pl
    ∧ connections pl = Some b :: free
    ∧ proxy.cp s' = Some p ∧ proxy.backend s' = Some b
    ∧ proxy.nodeName s' = Name pl
    ∧ trace w' = trace w ++ [EGetPool read; ENext p; EReturnPool p read] ++ evs.

(** The node name that the session holds is the name of the pool that
    it holds. *)
Definition node_of (s : proxy.Session) (w : World) : Prop :=
  ∀ p, proxy.cp s = Some p → ∃ pl, heap w !! p = Some pl ∧ proxy.nodeName s = Name pl.

(** ** Concrete inputs *)

Definition client1 : Conn := mkConn 1 false.
Definition backend7 : Conn := mkConn 7 false.

Definition frameD : Frame := mkFrame "D" x00 x00 x00 x05 ["a"%byte].
Definition frameZ : Frame := mkFrame "Z" x00 x00 x00 x05 ["I"%byte].
Definition frameQ : Frame := mkFrame "Q" x00 x00 x00 x05 [x00].
Definition frameP : Frame := mkFrame "p" x00 x00 x00 x05 [x00].

(** One master node, a pool capacity of 1, SSL disabled, every client
    accepted, queries without annotations. *)
Definition env0 : Env :=
  mkEnv false [("n1"%string, mkNode "db:5432" NODE_ROLE_MASTER)] 1 []
        (λ _ _, true) (λ _, true) (λ _ _ _, (true, None)) [] (λ _ _, false).

(** The same with SSL enabled. *)
Definition env_ssl : Env :=
  mkEnv true [("n1"%string, mkNode "db:5432" NODE_ROLE_MASTER)] 1 []
        (λ _ _, true) (λ _, true) (λ _ _ _, (true, None)) [] (λ _ _, false).

(** The same as [env0] with every authentication failing, on the
    backend side and on the client side, the latter without an error
    value. *)
Definition env_unauthenticated : Env :=
  mkEnv false [("n1"%string, mkNode "db:5432" NODE_ROLE_MASTER)] 1 []
        (λ _ _, false) (λ _, true) (λ _ _ _, (false, None)) [] (λ _ _, false).

(** A proxy with one write pool that holds [backend7]; the backend will
    answer with a data row and ready-for-query in one read. *)
Definition world0 : World :=
  mkWorld [] {[ 7%nat := [mkRead (batch [frameD; frameZ]) None] ]} ∅
          {[ 0%nat := mkPool "n1" [Some backend7] ]} [0%nat] [] ∅ false [].

(** The same with the counter of node n1 at the largest [int32]. *)
Definition world_full : World := set_Stats {[ "n1"%string := 2147483647 ]} world0.

(** Before [setupPools]: the dial will succeed and the backend will
    answer the startup message. *)
Definition world_start : World :=
  mkWorld [inl backend7] {[ 7%nat := [mkRead ["R"%byte] None] ]} ∅ ∅ [] [] ∅ false [].

(** Before [Connect]: the dial will succeed and the backend will refuse
    SSL. *)
Definition world_refusing : World :=
  mkWorld [inl backend7] {[ 7%nat := [mkRead ["N"%byte] None] ]} ∅ ∅ [] [] ∅ false [].

(** A client that asks for SSL and then sends its startup message. *)
Definition world_probed : World :=
  mkWorld [] {[ 1%nat := [mkRead (protocol.WriteInt32 (protocol.WriteInt32 [] 8)
                                      protocol.SSLRequestCode) None;
                          mkRead [x00; x00; x00; x08; x00; x03; x00; x00] None] ]}
          ∅ ∅ [] [] ∅ false [].

(** The run of [relay] on a query without annotations in [world0]. *)
Definition relayed0 : result proxy.Session * World :=
  proxy.relay env0 (Some client1) proxy.Session0 (wire frameQ) 6 world0.

Definition session_of (r : result proxy.Session * World) : proxy.Session :=
  match r.1 with
  | Ok s => s
  | Abort _ => proxy.Session0
  end.

(** A session inside a block that holds [backend7], drawn from pool 0. *)
Definition session_in : proxy.Session :=
  proxy.mkSession true (Some 0%nat) (Some backend7) false false "n1".

(** The proxy of [world0] while [backend7] is drawn from its pool. *)
Definition world_in : World :=
  mkWorld [] {[ 7%nat := [mkRead (batch [frameD; frameZ]) None] ]} ∅
          {[ 0%nat := mkPool "n1" [] ]} [0%nat] [] ∅ false [].

(** The run of [relay] on a query without annotations inside a block. *)
Definition relayed_in : result proxy.Session * World :=
  proxy.relay env0 (Some client1) session_in (wire frameQ) 6 world_in.

(** Annotations read off the first byte of the payload of a query:
    's' begins a block, 'e' ends one, 'r' marks a read. *)
Definition annotations_by_payload (message : list byte) (a : AnnotationType) : bool :=
  match a, message !! 5%nat with
  | StartAnnotation, Some "s"%byte => true
  | EndAnnotation, Some "e"%byte => true
  | ReadAnnotation, Some "r"%byte => true
  | _, _ => false
  end.

(** The same as [env0] with these annotations. *)
Definition env_annotated : Env :=
  mkEnv false [("n1"%string, mkNode "db:5432" NODE_ROLE_MASTER)] 1 []
        (λ _ _, true) (λ _, true) (λ _ _ _, (true, None)) [] annotations_by_payload.

(** The same as [env0] with no client accepted. *)
Definition env_invalid : Env :=
  mkEnv false [("n1"%string, mkNode "db:5432" NODE_ROLE_MASTER)] 1 []
        (λ _ _, true) (λ _, false) (λ _ _ _, (true, None)) ["E"%byte] (λ _ _, false).

Definition frameStart : Frame := mkFrame "Q" x00 x00 x00 x05 ["s"%byte].
Definition frameEnd : Frame := mkFrame "Q" x00 x00 x00 x05 ["e"%byte].
Definition frameRead : Frame := mkFrame "Q" x00 x00 x00 x05 ["r"%byte].
Definition frameX : Frame := mkFrame "X" x00 x00 x00 x04 [].

(** A data row of which the read delivered the header and the first
    byte of a payload of 7 bytes. *)
Definition frameD_begun : Frame := mkFrame "D" x00 x00 x00 x0b ["a"%byte].

(** The proxy of [world0] with a backend that will answer two
    queries. *)
Definition world_twice : World :=
  mkWorld [] {[ 7%nat := [mkRead (batch [frameD; frameZ]) None;
                          mkRead (batch [frameD; frameZ]) None] ]} ∅
          {[ 0%nat := mkPool "n1" [Some backend7] ]} [0%nat] [] ∅ false [].

(** The run of [relay] on a query that begins a block, from the
    initial session. *)
Definition relayed_start : result proxy.Session * World :=
  proxy.relay env_annotated (Some client1) proxy.Session0 (wire frameStart) 6 world0.

(** The run of [relay] on a query that ends a block, inside a block. *)
Definition relayed_end : result proxy.Session * World :=
  proxy.relay env_annotated (Some client1) session_in (wire frameEnd) 6 world_in.

(** The run of [relay] on a query without annotations, and then on a
    query that begins a block. *)
Definition relayed_plain : result proxy.Session * World :=
  proxy.relay env_annotated (Some client1) proxy.Session0 (wire frameQ) 6 world_twice.

Definition relayed_plain_start : result proxy.Session * World :=
  proxy.relay env_annotated (Some client1) (session_of relayed_plain)
              (wire frameStart) 6 relayed_plain.2.

(** Before [setupPools]: the dial will fail. *)
Definition world_unreachable : World :=
  mkWorld [inr (OtherError "connection refused")] ∅ ∅ ∅ [] [] ∅ false [].

(** Before [Connect]: the dial will succeed and the backend will accept
    SSL. *)
Definition world_accepting : World :=
  mkWorld [inl backend7] {[ 7%nat := [mkRead ["S"%byte] None] ]} ∅ ∅ [] [] ∅ false [].

(** The answer of a backend in two reads: a data row, then
    ready-for-query. *)
Definition answer_in_two : list ReadResult :=
  [mkRead (batch [frameD]) None; mkRead (batch [frameZ]) None].

(** A client that sends a frame of another type, then a terminate
    message, and then closes the connection. *)
Definition client_script : list ReadResult :=
  [mkRead (wire frameP) None; mkRead (wire frameX) None; mkRead [] (Some EOF)].

(** A client that sends a startup message, a query and a terminate
    message, with the proxy of [world0]. *)
Definition world_session : World :=
  mkWorld [] {[ 1%nat := [mkRead [x00; x00; x00; x08; x00; x03; x00; x00] None;
                          mkRead (wire frameQ) None; mkRead (wire frameX) None];
                7%nat := [mkRead (batch [frameD; frameZ]) None] ]} ∅
          {[ 0%nat := mkPool "n1" [Some backend7] ]} [0%nat] [] ∅ false [].

(** A client that sends a query and a terminate message. *)
Definition query_script : list ReadResult :=
  [mkRead (wire frameQ) None; mkRead (wire frameX) None].

(** A client that begins a block and sends a terminate message. *)
Definition block_script : list ReadResult :=
  [mkRead (wire frameStart) None; mkRead (wire frameX) None].

(** ** Running computations step by step *)

Lemma bind_unfold {A B} (m : M A) (f : A → M B) (w : World) :
  @mbind M M_bind A B f m w
  = match m w with
    | (Ok a, w') => f a w'
    | (Abort e, w') => (Abort e, w')
    end.
Proof. reflexivity. Qed.

Lemma bind_assoc {A B C} (m : M A) (f : A → M B) (g : B → M C) w :
  ((m ≫= f) ≫= g) w = (m ≫= λ a, f a ≫= g) w.
Proof. rewrite !bind_unfold. by destruct (m w) as [[a|e] w1]. Qed.

Lemma bind_Ok_inv {A B} (m : M A) (f : A → M B) w b w' :
  @mbind M M_bind A B f m w = (Ok b, w') →
  ∃ a w1, m w = (Ok a, w1) ∧ f a w1 = (Ok b, w').
Proof.
  rewrite bind_unfold. destruct (m w) as [[a|e] w1]; [eauto | done].
Qed.

Lemma log_bind {B} e (f : unit → M B) w : (log e ≫= f) w = f tt (emit e w).
Proof. reflexivity. Qed.

Lemma get_bind {B} (f : World → M B) w : (get ≫= f) w = f w w.
Proof. reflexivity. Qed.

Lemma put_bind {B} (f : unit → M B) w w' : (put w' ≫= f) w = f tt w'.
Proof. reflexivity. Qed.

Lemma ret_bind {A B} (a : A) (f : A → M B) w : (mret a ≫= f) w = f a w.
Proof. reflexivity. Qed.

Lemma lift_Ok_bind {A B} (a : A) (f : A → M B) w : (lift (Ok a) ≫= f) w = f a w.
Proof. reflexivity. Qed.

Lemma nonnil_bind {A B} (a : A) (f : A → M B) w : (nonnil (Some a) ≫= f) w = f a w.
Proof. reflexivity. Qed.

Lemma bind_ext {A B} (m : M A) (f g : A → M B) w :
  (∀ a w', f a w' = g a w') → (m ≫= f) w = (m ≫= g) w.
Proof. intros H. rewrite !bind_unfold. destruct (m w) as [[a|e] w']; [apply H | done]. Qed.

Ltac exec :=
  repeat first
    [ rewrite bind_assoc | rewrite log_bind | rewrite get_bind
    | rewrite put_bind | rewrite ret_bind | rewrite lift_Ok_bind
    | rewrite nonnil_bind ].

Ltac exec_in H :=
  repeat first
    [ rewrite bind_assoc in H | rewrite log_bind in H | rewrite get_bind in H
    | rewrite put_bind in H | rewrite ret_bind in H | rewrite lift_Ok_bind in H
    | rewrite nonnil_bind in H ].

(** ** Relations preserved by a run *)

Section run.
Context (R : World → World → Prop) (R_refl : Reflexive R) (R_trans : Transitive R).

Lemma run_ret {A} (a : A) w : run R (mret a) w.
Proof. unfold run. reflexivity. Qed.

Lemma run_fail {A} e w : run R (@fail A e) w.
Proof. unfold run. reflexivity. Qed.

Lemma run_lift {A} (r : result A) w : run R (lift r) w.
Proof. unfold run. reflexivity. Qed.

Lemma run_nonnil {A} (x : option A) w : run R (nonnil x) w.
Proof. destruct x; [apply run_ret | apply run_fail]. Qed.

Lemma run_bind {A B} (m : M A) (f : A → M B) w :
  run R m w → (∀ a w1, run R (f a) w1) → run R (m ≫= f) w.
Proof.
  unfold run. intros Hm Hf. rewrite bind_unfold.
  destruct (m w) as [[a|e] w1]; [|done].
  etrans; [exact Hm | apply Hf].
Qed.

Lemma run_get_bind {B} (f : World → M B) w :
  run R (f w) w → run R (get ≫= f) w.
Proof. done. Qed.

Lemma run_put_bind {B} (f : unit → M B) w w' :
  R w w' → run R (f tt) w' → run R (put w' ≫= f) w.
Proof. unfold run. rewrite bind_unfold. cbn. intros. by etrans. Qed.

Lemma run_put w w' : R w w' → run R (put w') w.
Proof. done. Qed.

Lemma run_log_bind {B} e (f : unit → M B) w :
  R w (emit e w) → run R (f tt) (emit e w) → run R (log e ≫= f) w.
Proof. unfold run. rewrite bind_unfold. cbn. intros. by etrans. Qed.

Lemma run_log e w : R w (emit e w) → run R (log e) w.
Proof. done. Qed.

End run.

Ltac run_step :=
  lazymatch goal with
  | |- run _ (mret _) _ => apply run_ret; tc_solve
  | |- run _ (fail _) _ => apply run_fail; tc_solve
  | |- run _ (lift _) _ => apply run_lift; tc_solve
  | |- run _ (nonnil _) _ => apply run_nonnil; tc_solve
  | |- run _ (mbind _ get) _ => apply run_get_bind; cbv beta
  | |- run _ (mbind _ (put _)) _ => apply run_put_bind; [tc_solve | | ]
  | |- run _ (mbind _ (log _)) _ => apply run_log_bind; [tc_solve | | ]
  | |- run _ (put _) _ => apply run_put
  | |- run _ (log _) _ => apply run_log
  | |- run _ (mbind _ _) _ => apply run_bind; [tc_solve | | intros ? ?; cbv beta]
  | |- run _ (match ?x with _ => _ end) _ => destruct x
  end.

Ltac run_auto := repeat run_step.

#[local] Instance adds_refl P : Reflexive (adds P).
Proof. intros w. exists []. by rewrite app_nil_r. Qed.

#[local] Instance adds_trans P : Transitive (adds P).
Proof.
  intros w1 w2 w3 (e1 & H1 & F1) (e2 & H2 & F2). exists (e1 ++ e2).
  rewrite H2, H1, app_assoc. split; [done | by apply Forall_app].
Qed.

Lemma adds_same_trace P w w' : trace w' = trace w → adds P w w'.
Proof. intros H. exists []. by rewrite app_nil_r. Qed.

Lemma adds_emit (P : event → bool) e w : P e = true → adds P w (emit e w).
Proof. intros HP. exists [e]. split; [done | by constructor]. Qed.

Lemma adds_weaken (P Q : event → bool) w w' :
  (∀ e, P e = true → Q e = true) → adds P w w' → adds Q w w'.
Proof.
  intros HPQ (evs & Hevs & HF). exists evs. split; [done|].
  eapply Forall_impl; [exact HF | done].
Qed.

#[local] Instance same_proxy_refl : Reflexive same_proxy.
Proof. by intros w. Qed.

#[local] Instance same_proxy_trans : Transitive same_proxy.
Proof.
  intros w1 w2 w3 (?&?&?&?&?) (?&?&?&?&?). repeat split; congruence.
Qed.

#[local] Instance same_Stats_refl : Reflexive same_Stats.
Proof. by intros w. Qed.

#[local] Instance same_Stats_trans : Transitive same_Stats.
Proof. intros w1 w2 w3 [??] [??]. split; congruence. Qed.

(** ** The network *)

Lemma Conn_Write_spec c message w :
  ∃ err w', Conn_Write c message w = (Ok err, w')
    ∧ trace w' = trace w ++ [EWrite c message]
    ∧ reads w' = reads w ∧ same_proxy w w'.
Proof.
  unfold Conn_Write. exec.
  change (writes (emit (EWrite c message) w)) with (writes w).
  destruct (writes w !! fd c) as [[|r rest]|]; exec;
    (do 2 eexists; split; [reflexivity | done]).
Qed.

Lemma Conn_Write_adds P c message w :
  P (EWrite c message) = true → run (adds P) (Conn_Write c message) w.
Proof.
  intros HP. unfold Conn_Write. run_auto; try by apply adds_emit.
  by apply adds_same_trace.
Qed.

Lemma Conn_Write_same c message w : run same_proxy (Conn_Write c message) w.
Proof. unfold Conn_Write. run_auto; done. Qed.

Lemma Send_adds P c message w :
  (∀ c, P (EWrite c message) = true) → run (adds P) (connect.Send c message) w.
Proof. intros HP. unfold connect.Send. run_auto. by apply Conn_Write_adds. Qed.

Lemma Send_same c message w : run same_proxy (connect.Send c message) w.
Proof. unfold connect.Send. run_auto. apply Conn_Write_same. Qed.

Lemma Receive_eq (c : Conn) r rest w :
  reads w !! fd c = Some (r :: rest) →
  connect.Receive (Some c) w = (Ok (received r), after_Receive c rest w).
Proof.
  intros H. unfold connect.Receive, Conn_Read. exec.
  change (reads (emit (ERead c) w)) with (reads w). rewrite H. by exec.
Qed.

Lemma Receive_next_eq (c : Conn) r rest w :
  connect.Receive_next (Some c) r rest w = (Ok (received r), after_Receive c rest w).
Proof. reflexivity. Qed.

(** [Receive] is [Receive_next] or [Receive_none], by the coming reads
    of the connection. *)
Lemma Receive_coming (c : Conn) w :
  connect.Receive (Some c) w
  = match default [] (reads w !! fd c) with
    | r :: rest => connect.Receive_next (Some c) r rest w
    | [] => connect.Receive_none (Some c) w
    end.
Proof.
  unfold connect.Receive, Conn_Read, connect.Receive_next, connect.Receive_none. exec.
  change (reads (emit (ERead c) w)) with (reads w).
  by destruct (reads w !! fd c) as [[|r rest]|].
Qed.

Lemma Receive_next_adds P c r rest w :
  (∀ c, P (ERead c) = true) → run (adds P) (connect.Receive_next c r rest) w.
Proof.
  intros HP. unfold connect.Receive_next. run_auto; try by apply adds_emit.
  by apply adds_same_trace.
Qed.

Lemma Receive_next_same c r rest w : run same_proxy (connect.Receive_next c r rest) w.
Proof. unfold connect.Receive_next. run_auto; done. Qed.

Lemma Receive_none_adds P c w :
  (∀ c, P (ERead c) = true) → run (adds P) (connect.Receive_none c) w.
Proof. intros HP. unfold connect.Receive_none. run_auto; by apply adds_emit. Qed.

Lemma Receive_none_same c w : run same_proxy (connect.Receive_none c) w.
Proof. unfold connect.Receive_none. run_auto; done. Qed.

(** ** The scan of a buffer *)

Section scan_bound.
Context (message : list byte) (length : Z).

Lemma scan_O start ty :
  proxy.scan 0 message length start ty
  = if bool_decide (start < length) then Abort Spins else Ok ty.
Proof. reflexivity. Qed.

Lemma scan_S fuel start ty :
  proxy.scan (S fuel) message length start ty
  = if bool_decide (start < length) then
      match scan_step message start with
      | Ok (start', ty') => proxy.scan fuel message length start' ty'
      | Abort e => Abort e
      end
    else Ok ty.
Proof.
  cbn [proxy.scan]. unfold scan_step. destruct (bool_decide _); [|done].
  destruct (slice_from message start) as [rest|e]; [|done]. cbn.
  destruct (protocol.GetMessageType rest) as [mt|e]; [|done]. cbn.
  by destruct (protocol.GetMessageLength rest) as [ml|e].
Qed.

Lemma scan_step_range start r : scan_step message start = Ok r → 0 ≤ start.
Proof.
  unfold scan_step, slice_from. destruct (decide _) as [H|H]; [lia | done].
Qed.

(** More iterations do not change a result. *)
Lemma scan_fuel_mono fuel : ∀ fuel' start ty,
  (fuel ≤ fuel')%nat →
  proxy.scan fuel message length start ty ≠ Abort Spins →
  proxy.scan fuel' message length start ty = proxy.scan fuel message length start ty.
Proof.
  induction fuel as [|fuel IH]; intros fuel' start ty Hle Hres.
  - rewrite scan_O in *. destruct fuel'; [done|]. rewrite scan_S.
    by destruct (bool_decide (start < length)).
  - destruct fuel' as [|fuel']; [lia|]. rewrite !scan_S in *.
    destruct (bool_decide (start < length)); [|done].
    destruct (scan_step message start) as [[start' ty']|e]; [|done].
    apply IH; [lia | done].
Qed.

Lemma leads_first v s :
  leads message length v s →
  v < length
  ∧ ∃ v' ty, scan_step message v = Ok (v', ty) ∧ (v' = s ∨ leads message length v' s).
Proof.
  induction 1 as [s ty Hv Hstep | s s' ty _ (Hv & v' & ty' & Hstep' & IH) Hs Hstep].
  - eauto 10.
  - split; [done|]. exists v', ty'. split; [done|]. right.
    destruct IH as [->|IH]; [by eapply leads_one | by eapply leads_more].
Qed.

(** A position on a cycle never leaves the loop. *)
Lemma scan_cycle fuel : ∀ s c ty,
  leads message length s s → (c = s ∨ leads message length s c ∧ leads message length c s) →
  proxy.scan fuel message length c ty = Abort Spins.
Proof.
  induction fuel as [|fuel IH]; intros s c ty Hcyc Hc.
  - rewrite scan_O.
    assert (c < length) as Hlt.
    { destruct Hc as [->|[_ Hcs]]; [by apply leads_first in Hcyc as [? _]
                                    | by apply leads_first in Hcs as [? _]]. }
    by rewrite bool_decide_eq_true_2.
  - rewrite scan_S.
    assert (leads message length c s) as Hcs by (destruct Hc as [->|[_ ?]]; done).
    assert (c = s ∨ leads message length s c) as Hsc by (destruct Hc as [->|[? _]]; auto).
    apply leads_first in Hcs as (Hlt & c' & ty' & Hstep & Hc').
    rewrite bool_decide_eq_true_2 by done. rewrite Hstep.
    apply (IH s); [done|].
    assert (leads message length s c') as Hsc'.
    { destruct Hsc as [->|Hsc]; [by eapply leads_one | by eapply leads_more]. }
    destruct Hc' as [->|Hc's]; [by left | by right].
Qed.

Lemma visited_bound (V : list Z) :
  NoDup V → (∀ v, v ∈ V → 0 ≤ v < length) → (List.length V ≤ Z.to_nat length)%nat.
Proof.
  intros Hnd Hin. rewrite <- (length_seqZ 0 length).
  apply submseteq_length, NoDup_submseteq; [done|].
  intros v Hv. apply elem_of_seqZ. specialize (Hin v Hv). lia.
Qed.

Lemma scan_visited fuel : ∀ V start ty,
  NoDup V → (∀ v, v ∈ V → 0 ≤ v < length) →
  (∀ v, v ∈ V → leads message length v start) →
  proxy.scan fuel message length start ty ≠ Abort Spins →
  proxy.scan (S (Z.to_nat length) - List.length V) message length start ty ≠ Abort Spins.
Proof.
  induction fuel as [|fuel IH]; intros V start ty Hnd Hin Hleads Hres.
  - rewrite scan_O in Hres. destruct (S (Z.to_nat length) - List.length V)%nat.
    + by rewrite scan_O.
    + rewrite scan_S. by destruct (bool_decide (start < length)).
  - pose proof (visited_bound V Hnd Hin) as HV.
    destruct (S (Z.to_nat length) - List.length V)%nat as [|n] eqn:Hn; [lia|].
    rewrite scan_S in *.
    destruct (bool_decide (start < length)) eqn:Hlt; [|done].
    apply bool_decide_eq_true_1 in Hlt.
    destruct (scan_step message start) as [[start' ty']|e] eqn:Hstep; [|done].
    pose proof (scan_step_range _ _ Hstep) as H0.
    assert (start ∉ V) as Hfresh.
    { intros Hv. apply Hres. pose proof (Hleads _ Hv) as Hcyc.
      apply (scan_cycle fuel start); [done|].
      apply leads_first in Hcyc as (_ & v' & ty'' & Hstep' & Hor).
      rewrite Hstep in Hstep'. injection Hstep' as <- <-.
      destruct Hor as [->|Hback]; [by left|].
      right. split; [by eapply leads_one | done]. }
    replace n with (S (Z.to_nat length) - List.length (start :: V))%nat
      by (cbn [List.length]; lia).
    apply IH; [by constructor | | | done].
    + intros v [->|Hv]%elem_of_cons; [lia | by apply Hin].
    + intros v [->|Hv]%elem_of_cons; [by eapply leads_one|].
      eapply leads_more; eauto.
Qed.

(** X4. The bound that [drain_iteration] puts on the scan is no
    restriction: whenever the loop ends, with a result or a panic, after
    any number of iterations, it does so within [length + 1]
    iterations. *)
Lemma scan_bound fuel start ty :
  proxy.scan fuel message length start ty ≠ Abort Spins →
  proxy.scan (S (Z.to_nat length)) message length start ty
  = proxy.scan fuel message length start ty.
Proof.
  intros Hres.
  assert (proxy.scan (S (Z.to_nat length) - List.length (@nil Z)) message length start ty
          ≠ Abort Spins) as Hb.
  { apply (scan_visited fuel); [constructor | set_solver | set_solver | done]. }
  cbn [List.length] in Hb. rewrite Nat.sub_0_r in Hb.
  destruct (Nat.le_ge_cases fuel (S (Z.to_nat length))) as [Hle|Hge].
  - by apply scan_fuel_mono.
  - symmetry. by apply scan_fuel_mono.
Qed.

End scan_bound.

Lemma scan_bound_witness :
  proxy.scan (S (Z.to_nat 6)) (wire frameZ) 6 0 "Z"
  = proxy.scan 1 (wire frameZ) 6 0 "Z".
Proof.
  apply (scan_bound (wire frameZ) 6 1 0 "Z").
  vm_compute. intros H. discriminate H.
Defined.

Lemma wire_length f : length (wire f) = (5 + length (payload f))%nat.
Proof. reflexivity. Qed.

Lemma batch_cons f fs : batch (f :: fs) = wire f ++ batch fs.
Proof. reflexivity. Qed.

Lemma batch_length_ge fs : (length fs ≤ length (batch fs))%nat.
Proof.
  induction fs as [|f fs IH]; [done|].
  rewrite batch_cons, length_app, wire_length. cbn [length]. lia.
Qed.

Lemma last_tag_cons (ty : byte) f fs :
  default ty (tag <$> last (f :: fs)) = default (tag f) (tag <$> last fs).
Proof. rewrite last_cons. by destruct (last fs). Qed.

Lemma batch_snoc_nonempty fs f :
  ∃ tl, batch (fs ++ [f]) = tag (default f (head fs)) :: tl.
Proof. destruct fs as [|f0 fs]; cbn; eauto. Qed.

(** Scanning from a frame boundary steps over the frames one by one and
    ends on the tag of the last one. *)
Lemma scan_batch fs : ∀ fuel pre suffix ty,
  Forall well_formed fs →
  (length fs ≤ fuel)%nat →
  proxy.scan fuel (pre ++ batch fs ++ suffix)
             (Z.of_nat (length pre + length (batch fs))) (Z.of_nat (length pre)) ty
  = Ok (default ty (tag <$> last fs)).
Proof.
  induction fs as [|f fs IH]; intros fuel pre suffix ty Hwf Hfuel.
  - cbn [batch fmap list_fmap concat length]. rewrite Nat.add_0_r.
    destruct fuel; cbn [proxy.scan]; by rewrite bool_decide_eq_false_2 by lia.
  - destruct fuel as [|fuel]; [cbn in Hfuel; lia|].
    apply Forall_cons in Hwf as [Hf Hwf].
    cbn [proxy.scan]. rewrite batch_cons, length_app, wire_length.
    rewrite bool_decide_eq_true_2 by lia.
    unfold slice_from. rewrite decide_True by (rewrite !length_app; lia).
    rewrite Nat2Z.id, drop_app_length.
    cbn [mbind result_bind rbind wire app protocol.GetMessageType protocol.GetMessageLength].
    rewrite Hf, last_tag_cons.
    specialize (IH fuel (pre ++ wire f) suffix (tag f) Hwf).
    rewrite length_app, wire_length in IH.
    rewrite <- !app_assoc in IH. cbn [wire app] in IH.
    replace (Z.of_nat (length pre) + (4 + Z.of_nat (length (payload f))) + 1)
      with (Z.of_nat (length pre + (5 + length (payload f)))) by lia.
    replace (Z.of_nat (length pre + (5 + length (payload f) + length (batch fs))))
      with (Z.of_nat (length pre + (5 + length (payload f)) + length (batch fs))) by lia.
    rewrite <- !app_assoc. apply IH. cbn in Hfuel. lia.
Qed.

(** ** The drain loop *)

Lemma drain_iteration_adds client received w :
  run (adds is_io) (proxy.drain_iteration client received) w.
Proof.
  unfold proxy.drain_iteration. destruct received as [[message length] err].
  run_auto. by apply Send_adds.
Qed.

Lemma drain_iteration_same client received w :
  run same_proxy (proxy.drain_iteration client received) w.
Proof.
  unfold proxy.drain_iteration. destruct received as [[message length] err].
  run_auto. apply Send_same.
Qed.

Lemma drain_adds client backend script w :
  run (adds is_io) (proxy.drain client backend script) w.
Proof.
  revert w. induction script as [|r script IH]; intros w; cbn [proxy.drain].
  - run_auto. by apply Receive_none_adds.
  - run_auto; [by apply Receive_next_adds | apply drain_iteration_adds | apply IH].
Qed.

Lemma drain_same client backend script w :
  run same_proxy (proxy.drain client backend script) w.
Proof.
  revert w. induction script as [|r script IH]; intros w; cbn [proxy.drain].
  - run_auto. apply Receive_none_same.
  - run_auto; [apply Receive_next_same | apply drain_iteration_same | apply IH].
Qed.

Lemma delivered_Ok r : delivered r = Ok (take size (data r)).
Proof.
  unfold delivered, received, slice_to. cbv zeta.
  rewrite decide_True by (rewrite length_app; lia).
  by rewrite Nat2Z.id, take_app_length.
Qed.

Lemma last_scanned_batch fs f err :
  Forall well_formed (fs ++ [f]) →
  (length (batch (fs ++ [f])) ≤ size)%nat →
  last_scanned (mkRead (batch (fs ++ [f])) err) = Ok (tag f).
Proof.
  intros Hwf Hlen. unfold last_scanned.
  pose proof (delivered_Ok (mkRead (batch (fs ++ [f])) err)) as Hd.
  unfold delivered, received in *. cbn [data rerr] in *. cbv zeta in *.
  rewrite take_ge in * by done. rewrite Hd.
  set (b := batch (fs ++ [f])) in *.
  set (zeros := replicate (size - length b) x00).
  destruct (batch_snoc_nonempty fs f) as (tl & Hb). fold b in Hb.
  cbn [mbind result_bind rbind]. rewrite Hb at 1. cbn [protocol.GetMessageType].
  pose proof (scan_batch (fs ++ [f]) (S (Z.to_nat (Z.of_nat (length b)))) [] zeros
                (tag (default f (head fs))) Hwf) as Hscan.
  cbn [app length Nat.add] in Hscan. fold b in Hscan.
  change (Z.of_nat 0) with 0 in Hscan.
  cbn [mbind result_bind rbind]. rewrite Hscan.
  2:{ rewrite Nat2Z.id. pose proof (batch_length_ge (fs ++ [f])). fold b in H. lia. }
  by rewrite last_snoc.
Qed.

Lemma drain_by_last_scanned (client backend : Conn) r rest w :
  match last_scanned r with
  | Ok last =>
      ∃ w1,
        trace w1 = trace w ++ [ERead backend; EWrite client (take size (data r))]
        ∧ reads w1 !! fd backend = Some rest
        ∧ proxy.drain (Some client) (Some backend) (r :: rest) w
          = if bool_decide (last = protocol.ReadyForQueryMessageType)
            then (Ok tt, w1)
            else proxy.drain (Some client) (Some backend) rest w1
  | Abort e =>
      proxy.drain (Some client) (Some backend) (r :: rest) w
      = (Abort e, after_Receive backend rest w)
  end.
Proof.
  cbn [proxy.drain]. rewrite bind_unfold, Receive_next_eq, bind_unfold.
  pose proof (delivered_Ok r) as Hd.
  unfold last_scanned, delivered, proxy.drain_iteration in *.
  destruct (received r) as [[message length] err]. rewrite Hd.
  rewrite lift_Ok_bind. cbn [mbind result_bind rbind].
  destruct (protocol.GetMessageType (take size (data r))) as [ty0|e];
    cbn [mbind result_bind rbind]; [|done].
  rewrite lift_Ok_bind.
  destruct (proxy.scan _ message length 0 ty0) as [last|e]; [|done].
  rewrite lift_Ok_bind.
  destruct (Conn_Write_spec client (take size (data r)) (after_Receive backend rest w))
    as (e & w1 & HW & Htr & Hreads & _).
  exists w1. split; [|split].
  - rewrite Htr. cbn. by rewrite <- app_assoc.
  - rewrite Hreads. cbn. apply lookup_insert_eq.
  - rewrite bind_unfold.
    change (connect.Send (Some client) _) with (Conn_Write client (take size (data r))).
    rewrite HW. cbn [mret M_ret]. by destruct (bool_decide _).
Qed.

(** ** The choice of the backend and the relay of a query *)

Lemma fetch_adds s w : run (adds is_pool_call) (proxy.fetch s) w.
Proof.
  unfold proxy.fetch, proxy.getPool, proxy.Pool_Next, proxy.Pool_Name,
    proxy.returnPool, proxy.deref.
  run_auto; try (by apply adds_emit); try (by apply adds_same_trace).
Qed.

Lemma fetch_same_Stats s w : run same_Stats (proxy.fetch s) w.
Proof.
  unfold proxy.fetch, proxy.getPool, proxy.Pool_Next, proxy.Pool_Name,
    proxy.returnPool, proxy.deref.
  run_auto; done.
Qed.




Lemma select_adds env s message w : run (adds is_pool_call) (select env s message) w.
Proof.
  unfold select. cbv zeta. destruct (proxy.fetch_backend _).
  - apply fetch_adds.
  - apply run_ret. tc_solve.
Qed.

Lemma select_same_Stats env s message w : run same_Stats (select env s message) w.
Proof.
  unfold select. cbv zeta. destruct (proxy.fetch_backend _).
  - apply fetch_same_Stats.
  - apply run_ret. tc_solve.
Qed.


Lemma Pool_Return_Ok_inv cp (c : option Conn) w w' :
  proxy.Pool_Return cp c w = (Ok tt, w') →
  ∃ p pl, cp = Some p ∧ heap w !! p = Some pl
    ∧ w' = set_heap (<[p := mkPool (Name pl) (connections pl ++ [c])]> (heap w))
                    (emit (EReturn p c) w).
Proof.
  unfold proxy.Pool_Return, proxy.deref. intros H.
  destruct cp as [p|]; [|done]. rewrite bind_assoc, nonnil_bind in H.
  rewrite bind_assoc, get_bind in H.
  destruct (heap w !! p) as [pl|] eqn:Hpl; [|done].
  rewrite bind_assoc, nonnil_bind, ret_bind in H. exec_in H.
  injection H as <-. eauto.
Qed.

Lemma relay_Ok_inv env client s message length w s' w' :
  proxy.relay env client s message length w = (Ok s', w') →
  ∃ s2 w2 b head err w4 w5,
    select env s message w = (Ok s2, w2)
    ∧ locked w2 = false
    ∧ proxy.backend s2 = Some b
    ∧ slice_to message length = Ok head
    ∧ Conn_Write b head (counted (proxy.nodeName s2) w2) = (Ok err, w4)
    ∧ proxy.drain client (Some b) (default [] (reads w4 !! fd b)) w4 = (Ok tt, w5)
    ∧ (if proxy.statementBlock s2
       then s' = s2 ∧ w' = w5
       else s' = reset_end s2
            ∧ proxy.Pool_Return (proxy.cp s2) (proxy.backend s2) w5 = (Ok tt, w')).
Proof.
  unfold proxy.relay. intros H.
  apply bind_Ok_inv in H as (s2 & w2 & Hsel & H).
  exists s2, w2.
  apply bind_Ok_inv in H as ([] & w3 & HL & H).
  unfold proxy.Lock in HL. rewrite bind_unfold in HL. cbn [get] in HL.
  destruct (locked w2) eqn:Hl; [done|].
  apply bind_Ok_inv in H as ([] & w3' & HS & H).
  apply bind_Ok_inv in H as ([] & w3'' & HU & H).
  apply bind_Ok_inv in H as (head & w3''' & Hh & H).
  apply bind_Ok_inv in H as (err & w4 & HW & H).
  apply bind_Ok_inv in H as (script & w4' & Hc & H).
  apply bind_Ok_inv in H as ([] & w5 & Hd & H).
  destruct (proxy.backend s2) as [b|] eqn:Hb; [|done].
  exists b, head, err, w4, w5.
  cbn in HL. injection HL as <-.
  cbn in HS. injection HS as <-.
  cbn in HU. injection HU as <-.
  unfold lift in Hh. injection Hh as Hh <-.
  cbn in Hc. injection Hc as <- <-.
  change (connect.Send (Some b) head) with (Conn_Write b head) in HW.
  split; [done|]. split; [done|]. split; [done|]. split; [done|].
  split; [exact HW|]. split; [exact Hd|].
  destruct (proxy.statementBlock s2) eqn:Hsb; cbn [negb] in H.
  - cbn in H. by injection H as <- <-.
  - destruct (proxy.end_ s2) eqn:He.
    + apply bind_Ok_inv in H as ([] & w6 & HR & H). cbn in H. injection H as <- <-.
      split; [|exact HR]. unfold reset_end. by rewrite Hsb, Hb.
    + apply bind_Ok_inv in H as ([] & w6 & HR & H). cbn in H. injection H as <- <-.
      rewrite Hb in HR. split; [|exact HR]. unfold reset_end. destruct s2; cbn in *. by subst.
Qed.




Lemma relay_counts env client s message length w s' w' :
  proxy.relay env client s message length w = (Ok s', w') →
  ∃ pre post b head,
    trace w' = trace w ++ pre
      ++ [ELock;
          EStats (proxy.nodeName s')
                 (wrap32 (default 0 (Stats w !! proxy.nodeName s') + 1));
          EUnlock; EWrite b head] ++ post
    ∧ Forall (λ e, is_pool_call e = true) pre
    ∧ Forall (λ e, is_EStats e = false) post
    ∧ proxy.backend s' = Some b
    ∧ slice_to message length = Ok head
    ∧ Stats w' = <[proxy.nodeName s' :=
                   wrap32 (default 0 (Stats w !! proxy.nodeName s') + 1)]> (Stats w).
Proof.
  intros Hrelay.
  apply relay_Ok_inv in Hrelay
    as (s2 & w2 & b & head & err & w4 & w5 & Hsel & _ & Hb & Hhead & HW & Hd & Hs').
  pose proof (select_adds env s message w) as (pre & Hpre & Fpre).
  pose proof (select_same_Stats env s message w) as [HSt _].
  rewrite Hsel in Hpre, HSt. cbn [snd] in Hpre, HSt.
  destruct (Conn_Write_spec b head (counted (proxy.nodeName s2) w2))
    as (err' & w4' & HW' & Htr4 & _ & (HSt4 & _)).
  rewrite HW in HW'. injection HW' as <- <-.
  pose proof (drain_adds client (Some b) (default [] (reads w4 !! fd b)) w4)
    as (post & Hpost & Fpost).
  pose proof (drain_same client (Some b) (default [] (reads w4 !! fd b)) w4) as (HSt5 & _).
  rewrite Hd in Hpost, HSt5. cbn [snd] in Hpost, HSt5.
  assert (Forall (λ e, is_EStats e = false) post) as Fpost'.
  { eapply Forall_impl; [exact Fpost|]. by intros []. }
  assert (trace w5 = trace w ++ pre
      ++ [ELock;
          EStats (proxy.nodeName s2)
                 (wrap32 (default 0 (Stats w !! proxy.nodeName s2) + 1));
          EUnlock; EWrite b head] ++ post) as Htr5.
  { rewrite Hpost, Htr4. cbn. rewrite Hpre, HSt. by rewrite <- !app_assoc. }
  assert (Stats w5 = <[proxy.nodeName s2 :=
                   wrap32 (default 0 (Stats w !! proxy.nodeName s2) + 1)]> (Stats w)) as HSt5'.
  { rewrite HSt5, HSt4. cbn. by rewrite HSt. }
  destruct (proxy.statementBlock s2).
  - destruct Hs' as [-> ->]. exists pre, post, b, head. done.
  - destruct Hs' as [-> HR]. rewrite Hb in HR.
    apply Pool_Return_Ok_inv in HR as (p & pl & Hcp & Hpl & ->).
    exists pre, (post ++ [EReturn p (Some b)]), b, head. cbn.
    rewrite Htr5. split; [by rewrite <- !app_assoc|].
    split; [done|]. split; [|done].
    apply Forall_app. split; [done|]. by constructor.
Qed.

(** ** Dead assignments *)

(** The error of the read plays no part in an iteration of the drain
    loop. *)
Lemma drain_iteration_ignores_error client message length err w :
  proxy.drain_iteration client (message, length, err) w
  = proxy.drain_iteration client (message, length, None) w.
Proof. reflexivity. Qed.

(** The result of the authentication exchange with a backend plays no
    part in [setupPools]. *)
Lemma seed_ignores_authentication env h name node newPool n : ∀ w,
  proxy.seed (with_authentication h env) name node newPool n w
  = proxy.seed env name node newPool n w.
Proof.
  induction n as [|n IH]; intros w; [done|]. cbn [proxy.seed].
  apply bind_ext. intros [connection err] w1.
  apply bind_ext. intros c w2.
  apply bind_ext. intros e w3.
  apply bind_ext. intros [[response k] e'] w4. cbv zeta.
  apply bind_ext. intros [] w5. apply IH.
Qed.

Lemma seed_nodes_ignores_authentication env h nodes capacity : ∀ w,
  proxy.seed_nodes (with_authentication h env) nodes capacity w
  = proxy.seed_nodes env nodes capacity w.
Proof.
  induction nodes as [|[name node] nodes IH]; intros w; [done|]. cbn [proxy.seed_nodes].
  apply bind_ext. intros newPool w1.
  apply bind_ext. intros w1' w2.
  apply bind_ext. intros [] w3.
  rewrite !bind_unfold, seed_ignores_authentication.
  destruct (proxy.seed env name node (Some newPool) (Z.to_nat capacity) w3) as [[[]|e] w4];
    [apply IH | done].
Qed.

Lemma setupPools_ignores_authentication env h w :
  proxy.setupPools (with_authentication h env) w = proxy.setupPools env w.
Proof.
  unfold proxy.setupPools. cbv zeta.
  apply bind_ext. intros w1 w2. apply bind_ext. intros [] w3.
  apply seed_nodes_ignores_authentication.
Qed.

(** ** The pools, the lock and the frames of a read *)

(** What a fetch does. *)
Lemma fetch_Ok_inv s w s' w' :
  proxy.fetch s w = (Ok s', w') →
  ∃ p others pl c free,
    pools_of (proxy.read s) w = p :: others
    ∧ heap w !! p = Some pl
    ∧ connections pl = c :: free
    ∧ s' = proxy.mkSession (proxy.statementBlock s) (Some p) c (proxy.read s)
                           (proxy.end_ s) (Name pl)
    ∧ trace w' = trace w ++ [EGetPool (proxy.read s); ENext p;
                             EReturnPool p (proxy.read s)]
    ∧ heap w' = <[p := mkPool (Name pl) free]> (heap w)
    ∧ pools_of (proxy.read s) w' = others ++ [p]
    ∧ pools_of (negb (proxy.read s)) w' = pools_of (negb (proxy.read s)) w
    ∧ Stats w' = Stats w ∧ locked w' = locked w ∧ reads w' = reads w
    ∧ writes w' = writes w.
Proof.
  unfold proxy.fetch, proxy.getPool, proxy.Pool_Next, proxy.Pool_Name,
    proxy.returnPool, proxy.deref, pools_of.
  intros H. exec_in H.
  destruct (proxy.read s) eqn:Hread.
  - change (readPools (emit (EGetPool true) w)) with (readPools w) in H.
    destruct (readPools w) as [|p others] eqn:Hpools; [rewrite bind_unfold in H; discriminate H|].
    exec_in H.
    change (heap (set_readPools others (emit (EGetPool true) w)) !! p)
      with (heap w !! p) in H.
    destruct (heap w !! p) as [pl|] eqn:Hpl; [|rewrite bind_unfold in H; discriminate H].
    exec_in H. destruct (connections pl) as [|c free] eqn:Hconn; [rewrite bind_unfold in H; discriminate H|].
    exec_in H. cbn [heap set_heap emit set_readPools] in H.
    rewrite lookup_insert_eq in H. exec_in H.
    injection H as <- <-. exists p, others, pl, c, free. cbn. by rewrite <- !app_assoc.
  - change (writePools (emit (EGetPool false) w)) with (writePools w) in H.
    destruct (writePools w) as [|p others] eqn:Hpools; [rewrite bind_unfold in H; discriminate H|].
    exec_in H.
    change (heap (set_writePools others (emit (EGetPool false) w)) !! p)
      with (heap w !! p) in H.
    destruct (heap w !! p) as [pl|] eqn:Hpl; [|rewrite bind_unfold in H; discriminate H].
    exec_in H. destruct (connections pl) as [|c free] eqn:Hconn; [rewrite bind_unfold in H; discriminate H|].
    exec_in H. cbn [heap set_heap emit set_writePools] in H.
    rewrite lookup_insert_eq in H. exec_in H.
    injection H as <- <-. exists p, others, pl, c, free. cbn. by rewrite <- !app_assoc.
Qed.

Lemma insert_twice (h : gmap nat Pool) p pl pl' :
  <[p := pl']> (<[p := pl]> h) = <[p := pl']> h.
Proof. apply insert_insert_eq. Qed.

(** What the relay of a query does after the choice of the backend. *)
Lemma relay_footprint env client s message length w s' w' :
  proxy.relay env client s message length w = (Ok s', w') →
  ∃ s2 w2 b head io,
    select env s message w = (Ok s2, w2)
    ∧ proxy.backend s2 = Some b
    ∧ slice_to message length = Ok head
    ∧ Forall (λ e, is_io e = true) io
    ∧ (∀ rd, pools_of rd w' = pools_of rd w2)
    ∧ if proxy.statementBlock s2 then
        s' = s2
        ∧ trace w' = trace w2 ++ forward_events (proxy.nodeName s2) b head w2 ++ io
        ∧ heap w' = heap w2
      else
        ∃ p pl,
          proxy.cp s2 = Some p ∧ heap w2 !! p = Some pl
          ∧ s' = reset_end s2
          ∧ trace w' = trace w2 ++ forward_events (proxy.nodeName s2) b head w2
                         ++ io ++ [EReturn p (Some b)]
          ∧ heap w' = <[p := mkPool (Name pl) (connections pl ++ [Some b])]> (heap w2).
Proof.
  intros Hrelay.
  apply relay_Ok_inv in Hrelay
    as (s2 & w2 & b & head & err & w4 & w5 & Hsel & _ & Hb & Hhead & Hsend & Hdrain & Hs').
  destruct (Conn_Write_spec b head (counted (proxy.nodeName s2) w2))
    as (err' & w4' & Hsend' & Htr4 & _ & Hsame4).
  rewrite Hsend in Hsend'. injection Hsend' as <- <-.
  pose proof (drain_adds client (Some b) (default [] (reads w4 !! fd b)) w4) as Hadds.
  pose proof (drain_same client (Some b) (default [] (reads w4 !! fd b)) w4) as Hsame5.
  unfold run in Hadds, Hsame5. rewrite Hdrain in Hadds, Hsame5. cbn [snd] in *.
  destruct Hadds as (io & Htr5 & Hio).
  destruct Hsame4 as (_ & Hheap4 & Hwp4 & Hrp4 & _).
  destruct Hsame5 as (_ & Hheap5 & Hwp5 & Hrp5 & _).
  assert (Htr : trace w5
                = trace w2 ++ forward_events (proxy.nodeName s2) b head w2 ++ io).
  { rewrite Htr5, Htr4. cbn [counted trace emit set_locked set_Stats forward_events].
    by rewrite <- !app_assoc. }
  assert (Hheap : heap w5 = heap w2) by by rewrite Hheap5, Hheap4.
  assert (Hpools : ∀ rd, pools_of rd w5 = pools_of rd w2).
  { intros []; unfold pools_of; [by rewrite Hrp5, Hrp4 | by rewrite Hwp5, Hwp4]. }
  exists s2, w2, b, head, io. do 4 (split; [done|]).
  destruct (proxy.statementBlock s2).
  - destruct Hs' as [-> ->]. done.
  - destruct Hs' as [-> Hret].
    apply Pool_Return_Ok_inv in Hret as (p & pl & Hp & Hpl & ->).
    split; [done|]. exists p, pl. rewrite Hheap in Hpl.
    split; [done|]. split; [done|]. split; [done|].
    cbn [trace heap emit set_heap]. rewrite Htr, Hheap, Hb, <- !app_assoc. done.
Qed.

#[local] Instance lock_free_refl : Reflexive lock_free.
Proof. intros w H. exact H. Qed.

#[local] Instance lock_free_trans : Transitive lock_free.
Proof. intros w1 w2 w3 H12 H23 H. by apply H23, H12. Qed.

Lemma same_proxy_lock_free {A} (m : M A) w : run same_proxy m w → run lock_free m w.
Proof. unfold run, lock_free. intros (_ & _ & _ & _ & ->). done. Qed.

Lemma same_Stats_lock_free {A} (m : M A) w : run same_Stats m w → run lock_free m w.
Proof. unfold run, lock_free. intros (_ & ->). done. Qed.

(** The update of the statistics takes the lock and gives it back. *)
Lemma count_lock_free {A} nodeName (k : M A) w :
  (∀ w1, run lock_free k w1) →
  run lock_free (proxy.Lock;; proxy.Stats_increment nodeName;; proxy.Unlock;; k) w.
Proof.
  intros Hk. unfold run, lock_free. intros Hw.
  unfold proxy.Lock, proxy.Stats_increment, proxy.Unlock.
  exec. rewrite Hw. exec. cbn [locked set_locked emit set_Stats].
  by apply Hk.
Qed.

Lemma relay_lock_free env client s message length w :
  run lock_free (proxy.relay env client s message length) w.
Proof.
  unfold proxy.relay. cbv zeta.
  apply run_bind; [tc_solve | | intros s2 w2].
  { apply same_Stats_lock_free. apply (select_same_Stats env s message w). }
  apply count_lock_free. intros w3.
  unfold connect.coming, proxy.Pool_Return, proxy.deref.
  run_auto; try (by unfold lock_free).
  - apply same_proxy_lock_free, Send_same.
  - apply same_proxy_lock_free, drain_same.
Qed.

Lemma serve_lock_free env client s script w :
  run lock_free (proxy.serve env client s script) w.
Proof.
  revert s w. induction script as [|r script IH]; intros s w; cbn [proxy.serve].
  - run_auto. apply same_proxy_lock_free, Receive_none_same.
  - apply run_bind; [tc_solve | | intros [[message length] err] w1].
    { apply same_proxy_lock_free, Receive_next_same. }
    destruct err; [apply run_ret; tc_solve|].
    apply run_bind; [tc_solve | apply run_lift; tc_solve | intros messageType w2].
    destruct (bool_decide _); [apply run_ret; tc_solve|].
    destruct (bool_decide _); [|apply IH].
    apply run_bind; [tc_solve | apply relay_lock_free | intros s1 w3; apply IH].
Qed.

Lemma Receive_same c w : run same_proxy (connect.Receive c) w.
Proof. unfold connect.Receive, Conn_Read. run_auto; done. Qed.

Lemma session_lock_free env client message length w :
  run lock_free (proxy.session env client message length) w.
Proof.
  unfold proxy.session.
  destruct (negb _).
  { run_auto. apply same_proxy_lock_free, Send_same. }
  destruct (AuthenticateClient env client message length) as [authenticated err].
  destruct (bool_decide _); [apply run_ret; tc_solve|].
  destruct (negb authenticated); [run_auto|].
  unfold connect.coming. run_auto. apply serve_lock_free.
Qed.

Lemma relay_session_events env client s message length w :
  run (adds is_session_event) (proxy.relay env client s message length) w.
Proof.
  unfold proxy.relay. cbv zeta.
  apply run_bind; [tc_solve | | intros s2 w2].
  { eapply adds_weaken; [|apply (select_adds env s message w)]. by intros []. }
  unfold proxy.Lock, proxy.Stats_increment, proxy.Unlock, connect.coming,
    proxy.Pool_Return, proxy.deref.
  run_auto; try (by apply adds_emit); try (by apply adds_same_trace).
  - by apply Send_adds.
  - eapply adds_weaken; [|apply drain_adds]. by intros [].
Qed.

Lemma serve_session_events env client s script w :
  run (adds is_session_event) (proxy.serve env client s script) w.
Proof.
  revert s w. induction script as [|r script IH]; intros s w; cbn [proxy.serve].
  - run_auto. by apply Receive_none_adds.
  - apply run_bind; [tc_solve | | intros [[message length] err] w1].
    { by apply Receive_next_adds. }
    destruct err; [apply run_ret; tc_solve|].
    apply run_bind; [tc_solve | apply run_lift; tc_solve | intros messageType w2].
    destruct (bool_decide _); [apply run_ret; tc_solve|].
    destruct (bool_decide _); [|apply IH].
    apply run_bind; [tc_solve | apply relay_session_events | intros s1 w3; apply IH].
Qed.

Lemma Receive_adds P c w :
  (∀ c, P (ERead c) = true) → run (adds P) (connect.Receive c) w.
Proof.
  intros HP. unfold connect.Receive, Conn_Read.
  run_auto; try (by apply adds_emit); by apply adds_same_trace.
Qed.

Lemma session_session_events env client message length w :
  run (adds is_session_event) (proxy.session env client message length) w.
Proof.
  unfold proxy.session.
  destruct (negb _).
  { run_auto. by apply Send_adds. }
  destruct (AuthenticateClient env client message length) as [authenticated err].
  destruct (bool_decide _); [apply run_ret; tc_solve|].
  destruct (negb authenticated); [run_auto|].
  unfold connect.coming. run_auto. apply serve_session_events.
Qed.

Lemma Connect_same env host w : run same_proxy (connect.Connect env host) w.
Proof.
  unfold connect.Connect, Dial, Conn_Write, Conn_Read, Conn_Close,
    connect.UpgradeClientConnection.
  run_auto; done.
Qed.

(** [Connect] returns a connection only with a nil error. *)
Lemma Connect_Some_nil env host w c err w' :
  connect.Connect env host w = (Ok (Some c, err), w') → err = None.
Proof.
  unfold connect.Connect. intros H.
  apply bind_Ok_inv in H as ([connection|e] & w1 & _ & H); [|by injection H].
  destruct (ssl_enable env); [|by injection H].
  apply bind_Ok_inv in H as ([e|] & w2 & _ & H); [by injection H|].
  apply bind_Ok_inv in H as ([[response n] [e|]] & w3 & _ & H); [by injection H|].
  destruct (_ && _).
  - apply bind_Ok_inv in H as ([] & w4 & _ & H). by injection H.
  - apply bind_Ok_inv in H as (c' & w4 & _ & H). by injection H.
Qed.

(** [Connect] returns a nil connection only with an error. *)
Lemma Connect_None_error env host w err w' :
  connect.Connect env host w = (Ok (None, err), w') → is_Some err.
Proof.
  unfold connect.Connect. intros H.
  apply bind_Ok_inv in H as ([connection|e] & w1 & _ & H); [|injection H as <- <-; eauto].
  destruct (ssl_enable env); [|by injection H].
  apply bind_Ok_inv in H as ([e|] & w2 & _ & H); [injection H as <- <-; eauto|].
  apply bind_Ok_inv in H as ([[response n] [e|]] & w3 & _ & H);
    [injection H as <- <-; eauto|].
  destruct (_ && _).
  - apply bind_Ok_inv in H as ([] & w4 & _ & H). by injection H.
  - apply bind_Ok_inv in H as (c' & w4 & _ & H). by injection H.
Qed.

Lemma Conn_Read_same c w : run same_proxy (Conn_Read c) w.
Proof. unfold Conn_Read. run_auto; done. Qed.

(** When the seeding of a pool returns, it has added one connection for
    each iteration. *)
Lemma seed_Ok_inv env name node p n : ∀ w w' pl,
  proxy.seed env name node (Some p) n w = (Ok tt, w') →
  heap w !! p = Some pl →
  ∃ cs, length cs = n
    ∧ heap w' = <[p := mkPool (Name pl) (connections pl ++ cs)]> (heap w)
    ∧ writePools w' = writePools w ∧ readPools w' = readPools w.
Proof.
  induction n as [|n IH]; intros w w' pl H Hpl.
  - injection H as <-. exists []. rewrite app_nil_r.
    split; [done|]. split; [|done]. destruct pl. by rewrite insert_id.
  - cbn [proxy.seed] in H.
    apply bind_Ok_inv in H as ([connection err] & w1 & HC & H).
    apply bind_Ok_inv in H as (c & w1' & Hc & H).
    destruct connection as [c'|]; [|done]. injection Hc as <- <-.
    apply Connect_Some_nil in HC as Herr. subst err.
    pose proof (Connect_same env (HostPort node) w) as S1.
    unfold run in S1. rewrite HC in S1. cbn [snd] in S1.
    apply bind_Ok_inv in H as (e & w2 & HW & H).
    pose proof (Conn_Write_same c' (startupMessage env) w1) as S2.
    unfold run in S2. rewrite HW in S2. cbn [snd] in S2.
    apply bind_Ok_inv in H as ([[response k] e'] & w3 & HR & H).
    pose proof (Conn_Read_same c' w2) as S3.
    unfold run in S3. rewrite HR in S3. cbn [snd] in S3.
    cbv zeta in H.
    apply bind_Ok_inv in H as ([] & w4 & HA & H).
    assert (heap w3 = heap w ∧ writePools w3 = writePools w
            ∧ readPools w3 = readPools w) as (Hh & Hwp & Hrp).
    { destruct S1 as (_ & ? & ? & ? & _), S2 as (_ & ? & ? & ? & _),
        S3 as (_ & ? & ? & ? & _). repeat split; congruence. }
    unfold proxy.Pool_Add, proxy.deref in HA. exec_in HA.
    rewrite Hh, Hpl in HA. exec_in HA. injection HA as <-.
    eapply IH in H as (cs & Hlen & Hheap & Hwp' & Hrp').
    2:{ cbn [heap set_heap emit]. apply lookup_insert_eq. }
    cbn [heap set_heap emit writePools readPools Name connections] in *.
    exists (Some c' :: cs). split; [by rewrite <- Hlen|].
    split; [|by rewrite Hwp', Hrp'].
    rewrite Hheap, Hh, insert_insert_eq, <- app_assoc. done.
Qed.

Lemma seed_nodes_Ok_inv env capacity nodes : ∀ w w',
  proxy.seed_nodes env nodes capacity w = (Ok tt, w') →
  ∃ ps,
    pools_made capacity w' ps nodes
    ∧ NoDup ps
    ∧ (∀ p, p ∈ ps → heap w !! p = None)
    ∧ (∀ q, is_Some (heap w !! q) → heap w' !! q = heap w !! q)
    ∧ writePools w' = writePools w ++ masters ps nodes
    ∧ readPools w' = readPools w ++ replicas ps nodes.
Proof.
  induction nodes as [|[name node] nodes IH]; intros w w' H.
  - injection H as <-. exists []. unfold masters, replicas. cbn.
    rewrite !app_nil_r. split; [constructor|]. split; [constructor|].
    split; [by intros p Hp%elem_of_nil|]. done.
  - cbn [proxy.seed_nodes] in H. unfold proxy.NewPool in H. exec_in H.
    set (p := fresh (dom (heap w))) in *.
    assert (Hfresh : heap w !! p = None) by apply not_elem_of_dom, is_fresh.
    set (w1 := set_heap (<[p:=mkPool name []]> (heap w)) w) in *.
    set (w2 := if bool_decide (Role node = NODE_ROLE_MASTER)
               then set_writePools (writePools w1 ++ [p]) w1
               else set_readPools (readPools w1 ++ [p]) w1).
    assert (H2 : (proxy.seed env name node (Some p) (Z.to_nat capacity)
                  ≫= λ _, proxy.seed_nodes env nodes capacity) w2 = (Ok tt, w')).
    { subst w2. by destruct (bool_decide (Role node = NODE_ROLE_MASTER)). }
    clear H. apply bind_Ok_inv in H2 as ([] & w3 & Hseed & H).
    assert (Hh2 : heap w2 = <[p:=mkPool name []]> (heap w)).
    { subst w2. by destruct (bool_decide _). }
    eapply seed_Ok_inv in Hseed as (cs & Hlen & Hh3 & Hwp3 & Hrp3).
    2:{ rewrite Hh2. apply lookup_insert_eq. }
    cbn [Name connections app] in Hh3. rewrite Hh2, insert_insert_eq in Hh3.
    apply IH in H as (ps & Hmade & Hnodup & Hnew & Hold & Hwp & Hrp).
    assert (Hp3 : heap w3 !! p = Some (mkPool name cs)).
    { rewrite Hh3. apply lookup_insert_eq. }
    exists (p :: ps). split; [|split; [|split; [|split]]].
    + constructor; [|done]. exists cs. split; [|done].
      rewrite Hold by (by rewrite Hp3). done.
    + constructor; [|done]. intros Hin%Hnew. by rewrite Hp3 in Hin.
    + intros q [->|Hq]%elem_of_cons; [done|].
      apply Hnew in Hq. rewrite Hh3 in Hq.
      by apply lookup_insert_None in Hq as [? _].
    + intros q Hq. assert (q ≠ p) as Hne by (intros ->; rewrite Hfresh in Hq; by destruct Hq).
      rewrite Hold; rewrite Hh3, lookup_insert_ne; done.
    + rewrite Hwp, Hrp, Hwp3, Hrp3. unfold masters, replicas. cbn [zip zip_with].
      rewrite !filter_cons. cbn [fst snd]. subst w2.
      destruct (decide (Role node = NODE_ROLE_MASTER)) as [Hm|Hm].
      * rewrite bool_decide_eq_true_2 by done.
        rewrite decide_False by (intros Hn; by apply Hn).
        cbn. by rewrite <- app_assoc.
      * rewrite bool_decide_eq_false_2 by done. rewrite decide_True by done.
        cbn. by rewrite <- app_assoc.
Qed.

(** A position that the scan steps to from itself is never left. *)
Lemma scan_fixpoint_spins message length start ty :
  start < length → scan_step message start = Ok (start, ty) →
  ∀ fuel ty0, proxy.scan fuel message length start ty0 = Abort Spins.
Proof.
  intros Hlt Hstep fuel. induction fuel as [|fuel IH]; intros ty0.
  - rewrite scan_O. by rewrite bool_decide_eq_true_2.
  - rewrite scan_S, bool_decide_eq_true_2, Hstep by done. apply IH.
Qed.

(** The scan steps over whole frames one by one. *)
Lemma scan_over_batch fs : ∀ fuel pre suffix length ty,
  Forall well_formed fs →
  Z.of_nat (List.length pre + List.length (batch fs)) ≤ length →
  proxy.scan (List.length fs + fuel) (pre ++ batch fs ++ suffix) length
             (Z.of_nat (List.length pre)) ty
  = proxy.scan fuel (pre ++ batch fs ++ suffix) length
               (Z.of_nat (List.length pre + List.length (batch fs)))
               (default ty (tag <$> last fs)).
Proof.
  induction fs as [|f fs IH]; intros fuel pre suffix length ty Hwf Hlen.
  - cbn [batch fmap list_fmap concat List.length Nat.add last default option_fmap
         option_map]. by rewrite Nat.add_0_r.
  - apply Forall_cons in Hwf as [Hf Hwf].
    rewrite batch_cons, length_app, wire_length in Hlen.
    cbn [List.length Nat.add]. rewrite scan_S.
    rewrite bool_decide_eq_true_2 by lia.
    unfold scan_step, slice_from.
    rewrite decide_True by (rewrite !length_app; lia).
    rewrite Nat2Z.id, drop_app_length, batch_cons.
    cbn [mbind result_bind rbind wire app protocol.GetMessageType
         protocol.GetMessageLength].
    rewrite Hf, last_tag_cons.
    specialize (IH fuel (pre ++ wire f) suffix length (tag f) Hwf).
    rewrite length_app, wire_length in IH.
    rewrite <- !app_assoc in IH. cbn [wire app] in IH.
    replace (Z.of_nat (List.length pre) + (4 + Z.of_nat (List.length (payload f))) + 1)
      with (Z.of_nat (List.length pre + (5 + List.length (payload f)))) by lia.
    rewrite <- !app_assoc. rewrite IH by lia. cbn [List.length]. rewrite length_app.
    f_equal. lia.
Qed.

Lemma slice_to_app (d zeros : list byte) :
  slice_to (d ++ zeros) (Z.of_nat (List.length d)) = Ok d.
Proof.
  unfold slice_to. rewrite decide_True by (rewrite length_app; lia).
  by rewrite Nat2Z.id, take_app_length.
Qed.

(** The scan after a read, on the bytes that the read delivered. *)
Lemma last_scanned_eq r :
  last_scanned r
  = (messageType ← protocol.GetMessageType (take size (data r));
     proxy.scan (S (List.length (take size (data r))))
       (take size (data r)
          ++ replicate (size - List.length (take size (data r))) x00)
       (Z.of_nat (List.length (take size (data r)))) 0 messageType).
Proof.
  unfold last_scanned, received. cbv zeta. rewrite slice_to_app.
  by rewrite Nat2Z.id.
Qed.

Lemma batch_snoc fs f : batch (fs ++ [f]) = batch fs ++ wire f.
Proof.
  unfold batch. rewrite fmap_app, concat_app. cbn [fmap list_fmap concat].
  by rewrite app_nil_r.
Qed.

Lemma scan_begun fs f zeros ty fuel :
  Forall well_formed fs →
  begun f →
  (List.length fs < fuel)%nat →
  proxy.scan fuel (batch (fs ++ [f]) ++ zeros)
             (Z.of_nat (List.length (batch (fs ++ [f])))) 0 ty
  = Ok (tag f).
Proof.
  intros Hwf Hf Hfuel. rewrite batch_snoc, <- app_assoc.
  replace fuel with (List.length fs + S (fuel - S (List.length fs)))%nat by lia.
  pose proof (scan_over_batch fs (S (fuel - S (List.length fs))) [] (wire f ++ zeros)
                (Z.of_nat (List.length (batch fs ++ wire f))) ty Hwf) as Hscan.
  cbn [app List.length Nat.add] in Hscan. change (Z.of_nat 0) with 0 in Hscan.
  assert (Z.of_nat (List.length (batch fs))
          ≤ Z.of_nat (List.length (batch fs ++ wire f))) as Hle
    by (rewrite length_app; lia).
  rewrite (Hscan Hle). clear Hscan Hle.
  rewrite scan_S, bool_decide_eq_true_2 by (rewrite length_app, wire_length; lia).
  unfold scan_step, slice_from.
  rewrite decide_True by (rewrite !length_app; lia).
  rewrite Nat2Z.id, drop_app_length.
  cbn [mbind result_bind rbind wire app protocol.GetMessageType
       protocol.GetMessageLength].
  unfold begun in Hf.
  destruct (fuel - S (List.length fs))%nat as [|n];
    [rewrite scan_O | rewrite scan_S];
    rewrite bool_decide_eq_false_2; try done;
    rewrite length_app, wire_length; lia.
Qed.

Lemma scan_stuck_frame fs ty tl zeros length :
  Forall well_formed fs →
  Z.of_nat (List.length (batch fs)) < length →
  ∀ fuel ty0,
    proxy.scan fuel (batch fs ++ wire (frameM ty tl) ++ zeros) length 0 ty0
    = Abort Spins.
Proof.
  intros Hwf Hlen fuel ty0.
  assert (Hlater : ∀ fuel' ty', proxy.scan fuel' (batch fs ++ wire (frameM ty tl) ++ zeros)
                     length (Z.of_nat (List.length (batch fs))) ty' = Abort Spins).
  { intros fuel' ty'. apply scan_fixpoint_spins with ty; [done|].
    unfold scan_step, slice_from.
    rewrite decide_True by (rewrite length_app; lia).
    rewrite Nat2Z.id, drop_app_length.
    cbn [mbind result_bind rbind wire frameM app protocol.GetMessageType
         protocol.GetMessageLength tag len0 len1 len2 len3 payload].
    change (int32_be xff xff xff xff) with (-1). do 2 f_equal. lia. }
  pose proof (scan_over_batch fs (S fuel) [] (wire (frameM ty tl) ++ zeros) length ty0 Hwf)
    as Hscan.
  cbn [app List.length Nat.add] in Hscan. change (Z.of_nat 0) with 0 in Hscan.
  rewrite Hlater in Hscan. specialize (Hscan ltac:(lia)).
  destruct (proxy.scan fuel (batch fs ++ wire (frameM ty tl) ++ zeros) length 0 ty0)
    as [ty1|[]] eqn:Hfuel; [| |  | done].
  all: rewrite (scan_fuel_mono _ _ fuel (List.length fs + S fuel)) in Hscan;
    [by rewrite Hfuel in Hscan | lia | by rewrite Hfuel].
Qed.

Lemma take_stuck_frame fs ty tl :
  (List.length (batch fs) + 5 ≤ size)%nat →
  take size (batch (fs ++ [frameM ty tl]))
  = batch fs ++ wire (frameM ty (take (size - List.length (batch fs) - 5) tl)).
Proof.
  intros Hlen. rewrite batch_snoc, take_app, take_ge by lia. f_equal.
  set (k := (size - List.length (batch fs) - 5)%nat).
  replace (size - List.length (batch fs))%nat with (5 + k)%nat by lia.
  reflexivity.
Qed.

#[local] Instance relays_only_refl avail : Reflexive (relays_only avail).
Proof.
  intros w Hw. split; [done|]. exists []. rewrite app_nil_r. split; [done|].
  by intros c m Hin%elem_of_nil.
Qed.

#[local] Instance relays_only_trans avail : Transitive (relays_only avail).
Proof.
  intros w1 w2 w3 H12 H23 Hw1.
  destruct (H12 Hw1) as (Hw2 & e1 & Ht1 & He1).
  destruct (H23 Hw2) as (Hw3 & e2 & Ht2 & He2).
  split; [done|]. exists (e1 ++ e2). rewrite Ht2, Ht1, app_assoc. split; [done|].
  intros c m [Hin|Hin]%elem_of_app; eauto.
Qed.

(** A step that leaves the coming reads alone and writes nothing. *)
Lemma relays_only_quiet avail w w' :
  reads w' = reads w →
  (∃ evs, trace w' = trace w ++ evs ∧ Forall (λ e, is_EWrite e = false) evs) →
  relays_only avail w w'.
Proof.
  intros Hr (evs & Ht & Hevs) Hw. split.
  - intros r (k & rs & Hk & Hin). apply Hw. exists k, rs. by rewrite <- Hr.
  - exists evs. split; [done|]. intros c m Hin.
    rewrite Forall_forall in Hevs. by apply Hevs in Hin.
Qed.

Lemma relays_only_emit avail e w :
  is_EWrite e = false → relays_only avail w (emit e w).
Proof.
  intros He. apply relays_only_quiet; [done|]. exists [e]. split; [done|].
  by constructor.
Qed.

Lemma relays_only_same_trace avail w w' :
  reads w' = reads w → trace w' = trace w → relays_only avail w w'.
Proof.
  intros Hr Ht. apply relays_only_quiet; [done|]. exists []. by rewrite app_nil_r.
Qed.

Lemma Send_relays_only avail c r w :
  avail r → run (relays_only avail) (connect.Send c (take size (data r))) w.
Proof.
  intros Hr. unfold connect.Send. destruct c as [c|]; [|apply run_fail; tc_solve].
  unfold run. rewrite nonnil_bind. intros Hw.
  destruct (Conn_Write_spec c (take size (data r)) w) as (err & w' & -> & Ht & Hreads & _).
  cbn [snd]. split.
  - intros r' (k & rs & Hk & Hin). apply Hw. exists k, rs. by rewrite <- Hreads.
  - exists [EWrite c (take size (data r))]. split; [done|].
    intros c' m [= -> ->]%list_elem_of_singleton. eauto.
Qed.

Lemma Receive_next_relays_only avail c r rest w :
  Forall avail rest → run (relays_only avail) (connect.Receive_next c r rest) w.
Proof.
  intros Hrest. destruct c as [c|]; [|apply run_fail; tc_solve].
  unfold run. rewrite Receive_next_eq. cbn [snd]. intros Hw. split.
  - intros r' (k & rs & Hk & Hin). unfold after_Receive in Hk. cbn [reads set_reads emit] in Hk.
    destruct (decide (k = fd c)) as [->|Hne].
    + rewrite lookup_insert_eq in Hk. injection Hk as <-.
      rewrite Forall_forall in Hrest. by apply Hrest.
    + rewrite lookup_insert_ne in Hk by done. apply Hw. by exists k, rs.
  - exists [ERead c]. split; [done|]. by intros c' m [=]%list_elem_of_singleton.
Qed.

Lemma Receive_none_relays_only avail c w :
  run (relays_only avail) (connect.Receive_none c) w.
Proof.
  unfold connect.Receive_none. run_auto. by apply relays_only_emit.
Qed.

(** What a read delivered, as the loops slice it. *)
Lemma received_delivered r :
  slice_to (received r).1.1 (received r).1.2 = Ok (take size (data r)).
Proof. unfold received. cbn [fst snd]. apply slice_to_app. Qed.

Lemma run_lift_Ok_bind (R : World → World → Prop) {A B} (a : A) (f : A → M B) w :
  run R (f a) w → run R (lift (Ok a) ≫= f) w.
Proof. done. Qed.

Lemma drain_iteration_relays_only avail client r w :
  avail r → run (relays_only avail) (proxy.drain_iteration client (received r)) w.
Proof.
  intros Hr. unfold proxy.drain_iteration.
  pose proof (received_delivered r) as Hd.
  destruct (received r) as [[message length] err]. cbn [fst snd] in Hd. rewrite Hd.
  apply run_lift_Ok_bind. run_auto. by apply Send_relays_only.
Qed.

Lemma drain_relays_only avail client backend script : ∀ w,
  Forall avail script →
  run (relays_only avail) (proxy.drain client backend script) w.
Proof.
  induction script as [|r script IH]; intros w Hs; cbn [proxy.drain].
  - run_auto. apply Receive_none_relays_only.
  - apply Forall_cons in Hs as [Hr Hs].
    destruct backend as [b|].
    2:{ unfold run. by rewrite bind_unfold. }
    unfold run. rewrite bind_unfold, Receive_next_eq.
    pose proof (Receive_next_relays_only avail (Some b) r script w Hs) as H1.
    unfold run in H1. rewrite Receive_next_eq in H1. cbn [snd] in H1.
    etrans; [exact H1|].
    match goal with
    | |- relays_only _ ?w1 (?m ?w1).2 => change (run (relays_only avail) m w1)
    end.
    apply run_bind; [tc_solve | by apply drain_iteration_relays_only |].
    intros done w1. destruct done; [apply run_ret; tc_solve | by apply IH].
Qed.

Lemma fetch_relays_only avail s w : run (relays_only avail) (proxy.fetch s) w.
Proof.
  unfold proxy.fetch, proxy.getPool, proxy.Pool_Next, proxy.Pool_Name,
    proxy.returnPool, proxy.deref.
  run_auto; try (by apply relays_only_emit); by apply relays_only_same_trace.
Qed.

Lemma coming_drain_relays_only avail client backend {A} (k : M A) w :
  (∀ w1, run (relays_only avail) k w1) →
  run (relays_only avail)
      (script ← connect.coming backend; proxy.drain client backend script;; k) w.
Proof.
  intros Hk. destruct backend as [b|]; [|unfold run; by rewrite bind_unfold].
  unfold run, connect.coming. exec. intros Hw.
  assert (Forall avail (default [] (reads w !! fd b))) as Hs.
  { apply Forall_forall. intros r Hr. apply Hw. exists (fd b).
    destruct (reads w !! fd b) as [rs|]; [by exists rs | by apply elem_of_nil in Hr]. }
  revert Hw.
  match goal with
  | |- _ → _ ∧ ∃ evs, trace (?m w).2 = _ ∧ _ =>
      change (run (relays_only avail) m w)
  end.
  apply run_bind; [tc_solve | by apply drain_relays_only | intros [] w1; apply Hk].
Qed.

Lemma count_relays_only avail {A} nodeName (k : M A) w :
  (∀ w1, run (relays_only avail) k w1) →
  run (relays_only avail)
      (proxy.Lock;; proxy.Stats_increment nodeName;; proxy.Unlock;; k) w.
Proof.
  intros Hk. unfold proxy.Lock, proxy.Stats_increment, proxy.Unlock.
  run_auto; try (by apply relays_only_emit); try (by apply relays_only_same_trace);
    apply Hk.
Qed.

Lemma relay_relays_only avail env client s r w :
  avail r →
  run (relays_only avail)
      (proxy.relay env client s (received r).1.1 (received r).1.2) w.
Proof.
  intros Hr. unfold proxy.relay. cbv zeta.
  apply run_bind; [tc_solve | | intros s2 w2].
  { destruct (proxy.fetch_backend _); [apply fetch_relays_only | apply run_ret; tc_solve]. }
  apply count_relays_only. intros w3.
  rewrite received_delivered. apply run_lift_Ok_bind.
  apply run_bind; [tc_solve | by apply Send_relays_only | intros _ w4].
  apply coming_drain_relays_only. intros w5.
  unfold proxy.Pool_Return, proxy.deref.
  run_auto; try (by apply relays_only_emit); by apply relays_only_same_trace.
Qed.

Lemma serve_relays_only avail env client script : ∀ s w,
  Forall avail script →
  run (relays_only avail) (proxy.serve env client s script) w.
Proof.
  induction script as [|r script IH]; intros s w Hs; cbn [proxy.serve].
  - run_auto. apply Receive_none_relays_only.
  - apply Forall_cons in Hs as [Hr Hs].
    destruct client as [c|]; [|unfold run; by rewrite bind_unfold].
    unfold run. rewrite bind_unfold, Receive_next_eq.
    pose proof (Receive_next_relays_only avail (Some c) r script w Hs) as H1.
    unfold run in H1. rewrite Receive_next_eq in H1. cbn [snd] in H1.
    etrans; [exact H1|].
    pose proof (relay_relays_only avail env (Some c) s r) as Hrelay.
    destruct (received r) as [[message length] err]. cbn [fst snd] in Hrelay.
    match goal with
    | |- relays_only _ ?w1 (?m ?w1).2 => change (run (relays_only avail) m w1)
    end.
    destruct err; [apply run_ret; tc_solve|].
    apply run_bind; [tc_solve | apply run_lift; tc_solve | intros messageType w2].
    destruct (bool_decide _); [apply run_ret; tc_solve|].
    destruct (bool_decide _); [|by apply IH].
    apply run_bind; [tc_solve | by apply Hrelay | intros s1 w3; by apply IH].
Qed.

Lemma same_pool_refl x : same_pool x x.
Proof. by destruct x. Qed.

Lemma same_pools_refl w : same_pools w w.
Proof. split; [done|]. split; [done|]. intros p. apply same_pool_refl. Qed.

Lemma same_pools_trans w1 w2 w3 :
  same_pools w1 w2 → same_pools w2 w3 → same_pools w1 w3.
Proof.
  intros (Hw & Hr & Hh) (Hw' & Hr' & Hh'). split; [by etrans|]. split; [by etrans|].
  intros p. specialize (Hh p). specialize (Hh' p). unfold same_pool in *.
  destruct (heap w1 !! p), (heap w2 !! p), (heap w3 !! p); try done.
  destruct Hh as [Hn Hh], Hh' as [Hn' Hh']. split; [congruence | by etrans].
Qed.

Lemma same_proxy_same_pools w w' : same_proxy w w' → same_pools w w'.
Proof.
  intros (_ & Hh & Hw & Hr & _). unfold same_pools. rewrite Hh, Hw, Hr.
  apply same_pools_refl.
Qed.

(** A query outside a block leaves the pools as they were. *)
Lemma relay_plain_same_pools env client s message length w s' w' :
  getAnnotations env message StartAnnotation = false →
  getAnnotations env message EndAnnotation = false →
  proxy.statementBlock s = false →
  proxy.end_ s = false →
  proxy.relay env client s message length w = (Ok s', w') →
  same_pools w w' ∧ proxy.statementBlock s' = false ∧ proxy.end_ s' = false.
Proof.
  intros Hstart Hend Hblock He Hrelay.
  apply relay_footprint in Hrelay
    as (s2 & w2 & b & head & io & Hsel & Hb & Hhead & Hio & Hpools' & Hs').
  unfold select in Hsel. cbv zeta in Hsel.
  unfold proxy.annotate in Hsel. rewrite Hstart, Hend in Hsel.
  unfold proxy.fetch_backend in Hsel. cbn [proxy.statementBlock proxy.end_] in Hsel.
  rewrite Hblock, He in Hsel. cbn [negb andb orb] in Hsel.
  apply fetch_Ok_inv in Hsel
    as (p & others & pl & c & free & Hpools & Hpl & Hconn & -> & _ & Hheap2
        & Hpools2 & Hother2 & _).
  cbn [proxy.read proxy.statementBlock proxy.backend proxy.cp proxy.nodeName] in *.
  subst c. destruct Hs' as (p' & pl' & Hp' & Hpl' & -> & _ & Hheap).
  injection Hp' as <-. rewrite Hheap2, lookup_insert_eq in Hpl'. injection Hpl' as <-.
  cbn [Name connections] in Hheap. rewrite Hheap2, insert_twice in Hheap.
  split; [|done].
  assert (Hrot : ∀ rd, pools_of rd w' ≡ₚ pools_of rd w).
  { intros rd. rewrite Hpools'.
    destruct (decide (rd = getAnnotations env message ReadAnnotation)) as [->|Hne].
    - rewrite Hpools2, Hpools. by rewrite Permutation_app_comm.
    - replace rd with (negb (getAnnotations env message ReadAnnotation))
        by (by destruct rd, (getAnnotations env message ReadAnnotation)).
      by rewrite Hother2. }
  split; [exact (Hrot false)|]. split; [exact (Hrot true)|].
  intros q. rewrite Hheap. destruct (decide (q = p)) as [->|Hne].
  - rewrite lookup_insert_eq, Hpl. cbn. split; [done|].
    rewrite Hconn. by rewrite Permutation_app_comm.
  - rewrite lookup_insert_ne by done. apply same_pool_refl.
Qed.

(** What the relay of a query does to the pool, the backend and the node
    name of the session, by the condition of the fetch. *)
Lemma relay_choice env client s message length w s' w' :
  proxy.relay env client s message length w = (Ok s', w') →
  ∃ b head pre evs,
    proxy.backend s' = Some b
    ∧ slice_to message length = Ok head
    ∧ trace w' = trace w ++ pre ++ forward_events (proxy.nodeName s') b head w ++ evs
    ∧ Forall (λ e, is_pool_call e = false) evs
    ∧ (if proxy.fetch_backend (proxy.annotate s (getAnnotations env message))
       then draws (getAnnotations env message ReadAnnotation) w s' w'
            ∧ ∃ p, pre = [EGetPool (getAnnotations env message ReadAnnotation); ENext p;
                          EReturnPool p (getAnnotations env message ReadAnnotation)]
       else pre = []
            ∧ proxy.cp s' = proxy.cp s ∧ proxy.backend s' = proxy.backend s
            ∧ proxy.nodeName s' = proxy.nodeName s)
    ∧ (node_of s w → node_of s' w').
Proof.
  intros Hrelay.
  apply relay_footprint in Hrelay
    as (s2 & w2 & b & head & io & Hsel & Hb & Hhead & Hio & _ & Hs').
  unfold select in Hsel. cbv zeta in Hsel.
  set (s1 := proxy.annotate s (getAnnotations env message)) in *.
  assert (Hs1 : proxy.cp s1 = proxy.cp s ∧ proxy.backend s1 = proxy.backend s
                ∧ proxy.nodeName s1 = proxy.nodeName s
                ∧ proxy.read s1 = getAnnotations env message ReadAnnotation).
  { subst s1. unfold proxy.annotate.
    by destruct (getAnnotations env message StartAnnotation),
                (getAnnotations env message EndAnnotation). }
  destruct Hs1 as (Hcp1 & Hb1 & Hn1 & Hr1).
  assert (Hio' : Forall (λ e, is_pool_call e = false) io).
  { eapply Forall_impl; [exact Hio|]. by intros []. }
  assert (Hfields : proxy.cp s' = proxy.cp s2 ∧ proxy.backend s' = proxy.backend s2
                    ∧ proxy.nodeName s' = proxy.nodeName s2).
  { destruct (proxy.statementBlock s2).
    - by destruct Hs' as (-> & _).
    - by destruct Hs' as (p & pl & _ & _ & -> & _). }
  destruct Hfields as (Hcp' & Hb' & Hn').
  assert (Htrace : ∃ evs, trace w' = trace w2 ++ forward_events (proxy.nodeName s') b head w2
                                       ++ evs
                          ∧ Forall (λ e, is_pool_call e = false) evs).
  { rewrite Hn'. destruct (proxy.statementBlock s2).
    - destruct Hs' as (_ & Htr & Hh). by exists io.
    - destruct Hs' as (p & pl & Hp & Hpl & _ & Htr & Hh).
      exists (io ++ [EReturn p (Some b)]). split; [by rewrite Htr|].
      apply Forall_app. split; [done | by repeat constructor]. }
  destruct Htrace as (evs & Htr & Hevs).
  assert (Hnames : ∀ q pl, heap w2 !! q = Some pl →
                     ∃ pl', heap w' !! q = Some pl' ∧ Name pl' = Name pl).
  { intros q pl Hq. destruct (proxy.statementBlock s2).
    - destruct Hs' as (_ & _ & ->). eauto.
    - destruct Hs' as (p & pl0 & _ & Hpl0 & _ & _ & ->).
      destruct (decide (q = p)) as [->|Hne].
      + rewrite lookup_insert_eq. rewrite Hq in Hpl0. injection Hpl0 as <-. eauto.
      + rewrite lookup_insert_ne by done. eauto. }
  destruct (proxy.fetch_backend s1) eqn:Hfetch.
  - apply fetch_Ok_inv in Hsel
      as (p & others & pl & c & free & Hpools & Hpl & Hconn & -> & Htr2 & Hheap2
          & _ & _ & Hstats2 & _).
    cbn [proxy.cp proxy.backend proxy.nodeName] in *.
    rewrite Hr1 in *. subst c.
    assert (Htr' : trace w' = trace w
              ++ [EGetPool (getAnnotations env message ReadAnnotation); ENext p;
                  EReturnPool p (getAnnotations env message ReadAnnotation)]
              ++ forward_events (proxy.nodeName s') b head w ++ evs).
    { rewrite Htr, Htr2. unfold forward_events. by rewrite Hstats2, <- !app_assoc. }
    exists b, head, [EGetPool (getAnnotations env message ReadAnnotation); ENext p;
                     EReturnPool p (getAnnotations env message ReadAnnotation)], evs.
    do 4 (split; [done|]). split; [split; [|by exists p]|].
    + exists p, others, pl, b, free, (forward_events (proxy.nodeName s') b head w ++ evs).
      do 6 (split; [done|]). exact Htr'.
    + intros _ q Hq. rewrite Hcp' in Hq. injection Hq as <-.
      destruct (Hnames p (mkPool (Name pl) free)) as (pl' & Hpl' & Hname).
      { rewrite Hheap2. apply lookup_insert_eq. }
      exists pl'. by rewrite Hn', Hname.
  - injection Hsel as <- <-.
    exists b, head, [], evs. split; [by rewrite Hb'|]. do 3 (split; [done|]). split.
    + split; [done|]. split; [congruence|]. split; congruence.
    + intros Hnode q Hq. rewrite Hcp', Hcp1 in Hq.
      destruct (Hnode q Hq) as (pl & Hpl & Hname).
      destruct (Hnames q pl Hpl) as (pl' & Hpl' & Hname').
      exists pl'. by rewrite Hn', Hn1, Hname', Hname.
Qed.

(** ** The claims *)



(** C2. A read from the backend that returns an error does not end the
    drain loop: an iteration does the same with and without the error.
    When the read returns [io.EOF] together with its last bytes, a
    data-row frame, the iteration computes [done] as false, and the
    loop goes on to the next read. *)
Theorem drain_read_error_reads_again :
  (∀ client message length err w,
     proxy.drain_iteration client (message, length, err) w
     = proxy.drain_iteration client (message, length, None) w)
  ∧ let failed := mkRead (wire frameD) (Some EOF) in
    let next := mkRead (wire frameZ) None in
    (proxy.drain_iteration (Some client1) (received failed) world0).1 = Ok false
    ∧ events_of (proxy.drain (Some client1) (Some backend7) [failed; next]) world0
      = [ERead backend7; EWrite client1 (wire frameD);
         ERead backend7; EWrite client1 (wire frameZ)].
Proof.
  split; [apply drain_iteration_ignores_error|].
  split; vm_compute; reflexivity.
Qed.

(** C3. After a query was relayed with the session outside a block, the
    backend has been given back to its pool, where it is the last of
    the free set, and [end] is false, so that a next query that neither
    begins nor ends a block fetches a new backend. The pool and the
    backend of the session are not cleared: a next query that begins or
    ends a block fetches nothing and is written to the connection that
    was given back, and a query that ends a block gives it back once
    more. *)
Theorem released_backend_stays_pinned env (client : option Conn) (s : proxy.Session)
    (message : list byte) (length : Z) (w : World) (s' : proxy.Session) (w' : World) :
  proxy.relay env client s message length w = (Ok s', w') →
  proxy.statementBlock s' = false →
  ∃ p c pl,
    last (trace w') = Some (EReturn p (Some c))
    ∧ heap w' !! p = Some pl ∧ last (connections pl) = Some (Some c)
    ∧ proxy.cp s' = Some p ∧ proxy.backend s' = Some c
    ∧ proxy.end_ s' = false
    ∧ (∀ annotations : AnnotationType → bool,
         annotations StartAnnotation = false →
         annotations EndAnnotation = false →
         proxy.fetch_backend (proxy.annotate s' annotations) = true)
    ∧ (∀ message2 length2 w2 s2 w2',
         getAnnotations env message2 StartAnnotation = true
         ∨ getAnnotations env message2 EndAnnotation = true →
         proxy.relay env client s' message2 length2 w2 = (Ok s2, w2') →
         proxy.cp s2 = Some p ∧ proxy.backend s2 = Some c
         ∧ ∃ head io,
             slice_to message2 length2 = Ok head
             ∧ Forall (λ e, is_io e = true) io
             ∧ trace w2' = trace w2 ++ forward_events (proxy.nodeName s') c head w2 ++ io
                 ++ (if getAnnotations env message2 StartAnnotation then []
                     else [EReturn p (Some c)])).
Proof.
  intros Hrelay Hsb.
  apply relay_Ok_inv in Hrelay
    as (s2 & w2 & b & head & err & w4 & w5 & _ & _ & Hb & _ & _ & _ & Hs').
  destruct (proxy.statementBlock s2) eqn:Hsb2.
  { destruct Hs' as [-> _]. congruence. }
  destruct Hs' as [-> HR]. rewrite Hb in HR.
  apply Pool_Return_Ok_inv in HR as (p & pl & Hcp & Hpl & ->).
  exists p, b, (mkPool (Name pl) (connections pl ++ [Some b])).
  cbn [trace heap emit set_heap connections].
  rewrite last_snoc, lookup_insert_eq, last_snoc.
  do 6 (split; [done|]). split.
  - intros annotations Hstart Hend.
    unfold proxy.fetch_backend, proxy.annotate. rewrite Hstart, Hend. cbn.
    by rewrite Hsb2.
  - intros message2 length2 w6 s6 w6' Hann Hrelay2.
    apply relay_footprint in Hrelay2
      as (s3 & w3 & b3 & head3 & io & Hsel & Hb3 & Hhead3 & Hio & _ & Hs3).
    unfold select in Hsel. cbv zeta in Hsel.
    assert (proxy.fetch_backend
              (proxy.annotate (reset_end s2) (getAnnotations env message2)) = false) as Hf.
    { unfold proxy.fetch_backend, proxy.annotate, reset_end.
      destruct (getAnnotations env message2 StartAnnotation) eqn:Hstart;
        cbn [proxy.statementBlock proxy.end_ proxy.cp proxy.backend];
        [by rewrite Hcp, Hb|].
      destruct Hann as [?|Hend]; [done|]. rewrite Hend.
      cbn [proxy.statementBlock proxy.end_ proxy.cp proxy.backend].
      by rewrite Hcp, Hb. }
    rewrite Hf in Hsel. injection Hsel as <- <-.
    unfold proxy.annotate, reset_end in Hb3, Hs3 |- *.
    destruct (getAnnotations env message2 StartAnnotation) eqn:Hstart;
      cbn [proxy.statementBlock proxy.end_ proxy.cp proxy.backend proxy.nodeName]
        in Hb3, Hs3 |- *.
    + rewrite Hb in Hb3. injection Hb3 as <-. destruct Hs3 as (-> & Htr & _).
      cbn [proxy.cp proxy.backend]. split; [done|]. split; [done|].
      exists head3, io. rewrite app_nil_r. done.
    + destruct Hann as [?|Hend]; [done|]. rewrite Hend in Hb3, Hs3.
      cbn [proxy.statementBlock proxy.end_ proxy.cp proxy.backend proxy.nodeName]
        in Hb3, Hs3.
      rewrite Hb in Hb3. injection Hb3 as <-.
      destruct Hs3 as (p' & pl' & Hp' & _ & -> & Htr & _).
      rewrite Hcp in Hp'. injection Hp' as <-.
      cbn [proxy.cp proxy.backend reset_end]. split; [done|]. split; [done|].
      exists head3, io. done.
Qed.

Lemma released_backend_stays_pinned_witness :
  ∃ p c pl,
    last (trace relayed_plain.2) = Some (EReturn p (Some c))
    ∧ heap relayed_plain.2 !! p = Some pl ∧ last (connections pl) = Some (Some c)
    ∧ proxy.cp (session_of relayed_plain) = Some p
    ∧ proxy.backend (session_of relayed_plain) = Some c
    ∧ proxy.end_ (session_of relayed_plain) = false
    ∧ (∀ annotations : AnnotationType → bool,
         annotations StartAnnotation = false →
         annotations EndAnnotation = false →
         proxy.fetch_backend (proxy.annotate (session_of relayed_plain) annotations)
         = true)
    ∧ (∀ message2 length2 w2 s2 w2',
         getAnnotations env_annotated message2 StartAnnotation = true
         ∨ getAnnotations env_annotated message2 EndAnnotation = true →
         proxy.relay env_annotated (Some client1) (session_of relayed_plain)
                     message2 length2 w2 = (Ok s2, w2') →
         proxy.cp s2 = Some p ∧ proxy.backend s2 = Some c
         ∧ ∃ head io,
             slice_to message2 length2 = Ok head
             ∧ Forall (λ e, is_io e = true) io
             ∧ trace w2' = trace w2
                 ++ forward_events (proxy.nodeName (session_of relayed_plain)) c head w2
                 ++ io
                 ++ (if getAnnotations env_annotated message2 StartAnnotation then []
                     else [EReturn p (Some c)])).
Proof.
  apply (released_backend_stays_pinned env_annotated (Some client1) proxy.Session0
           (wire frameQ) 6 world_twice (session_of relayed_plain) relayed_plain.2).
  - vm_compute. reflexivity.
  - vm_compute. reflexivity.
Defined.

(** C4. With SSL enabled, when the backend answers the SSL request with
    a first byte other than 'S', [Connect] closes the connection, never
    upgrades it, and returns it with a nil error. *)
Theorem Connect_refusal_reports_no_error env (host : string) (connection : Conn)
    (b : byte) (tl : list byte) (ds : list (Conn + error))
    (rs : list ReadResult) (w : World) :
  ssl_enable env = true →
  dials w = inl connection :: ds →
  writes w !! fd connection = None →
  reads w !! fd connection = Some (mkRead (b :: tl) None :: rs) →
  b ≠ protocol.SSLAllowed →
  ∃ w',
    connect.Connect env host w = (Ok (Some connection, None), w')
    ∧ trace w' = trace w ++
        [EDial host;
         EWrite connection (protocol.WriteInt32 (protocol.WriteInt32 [] 8)
                                                protocol.SSLRequestCode);
         ERead connection; EClose connection].
Proof.
  intros Hssl Hd Hw Hr Hb. unfold connect.Connect, Dial. exec.
  change (dials (emit (EDial host) w)) with (dials w). rewrite Hd. exec.
  rewrite Hssl. unfold Conn_Write. exec. cbn [writes emit set_dials].
  rewrite Hw. exec. unfold Conn_Read. exec. cbn [reads emit set_dials].
  rewrite Hr. exec. unfold received. cbn [data rerr]. cbv beta iota zeta.
  cbn [take size]. cbn [app length lookup list_lookup].
  rewrite bool_decide_eq_true_2 by lia.
  rewrite (bool_decide_eq_false_2 (Some b = Some "S"%byte))
    by (unfold protocol.SSLAllowed in Hb; congruence).
  cbn [negb andb]. unfold Conn_Close. exec.
  eexists. split; [reflexivity|]. cbn. by rewrite <- !app_assoc.
Qed.

Lemma Connect_refusal_reports_no_error_witness :
  ∃ w', connect.Connect env_ssl "db:5432" world_refusing = (Ok (Some backend7, None), w')
    ∧ trace w' = trace world_refusing ++
        [EDial "db:5432";
         EWrite backend7 (protocol.WriteInt32 (protocol.WriteInt32 [] 8)
                                              protocol.SSLRequestCode);
         ERead backend7; EClose backend7].
Proof.
  apply (Connect_refusal_reports_no_error env_ssl "db:5432" backend7 "N" [] [] []
           world_refusing); [reflexivity | reflexivity | reflexivity | reflexivity | ].
  intros H. discriminate H.
Defined.

(** C5. After a read from the backend the drain loop forwards what the
    read delivered and then ends if the last frame it scanned in the
    buffer has the ready-for-query tag, and goes on with the next read
    if it has another tag. When the read delivered a batch of whole
    frames, the last frame scanned is the last frame of the batch: a
    batch that ends with a ready-for-query frame ends the loop after
    this one read. *)
Theorem drain_ends_iff_last_frame_ready (client backend : Conn)
    (rest : list ReadResult) (w : World) :
  (∀ r,
     match last_scanned r with
     | Ok last =>
         ∃ w1,
           trace w1 = trace w ++ [ERead backend; EWrite client (take size (data r))]
           ∧ reads w1 !! fd backend = Some rest
           ∧ proxy.drain (Some client) (Some backend) (r :: rest) w
             = if bool_decide (last = protocol.ReadyForQueryMessageType)
               then (Ok tt, w1)
               else proxy.drain (Some client) (Some backend) rest w1
     | Abort e =>
         proxy.drain (Some client) (Some backend) (r :: rest) w
         = (Abort e, after_Receive backend rest w)
     end)
  ∧ (∀ fs f err,
       Forall well_formed (fs ++ [f]) →
       (length (batch (fs ++ [f])) ≤ size)%nat →
       last_scanned (mkRead (batch (fs ++ [f])) err) = Ok (tag f)).
Proof.
  split.
  - intros r. apply drain_by_last_scanned.
  - apply last_scanned_batch.
Qed.

Lemma drain_ends_iff_last_frame_ready_witness :
  last_scanned (mkRead (batch ([frameD] ++ [frameZ])) None) = Ok (tag frameZ).
Proof.
  apply (proj2 (drain_ends_iff_last_frame_ready client1 backend7 [] world0)).
  - repeat constructor.
  - vm_compute. lia.
Defined.

(** C6, as stated, fails: a counter at 2147483647 is not incremented by
    1 by the relay of a query, it wraps around to -2147483648. *)
Lemma stats_counter_wraps :
  ∃ s' w',
    proxy.relay env0 (Some client1) proxy.Session0 (wire frameQ) 6 world_full = (Ok s', w')
    ∧ Stats world_full !! "n1"%string = Some 2147483647
    ∧ Stats w' !! "n1"%string = Some (-2147483648).
Proof. do 2 eexists. split; [vm_compute; reflexivity | done]. Qed.

(** C6, amended. When a query is relayed, the events after the choice of
    the backend are: lock, one update of the counter of the selected
    node to its old value plus 1 in 32-bit arithmetic, unlock, and then
    the write of the query to the backend; no other counter update
    follows, and the statistics afterwards differ in this counter only.
    The new value is the old one plus 1 unless the old one is the largest
    [int32]. The selected node is the node of the backend that the
    query is written to: when a backend is fetched, the counter is that
    of the name of the pool from whose free set this backend was drawn;
    otherwise the backend is the one that the session held, and the
    counter is that of the node name that the session held with it.
    That this name is the name of the pool of the session holds when the
    loop is entered and is kept by every relayed query and every read.
    A frame that is not a query leaves the statistics alone. *)
Theorem stats_incremented_before_forward env (client : Conn) (s : proxy.Session)
    (w : World) :
  (∀ message length s' w',
     proxy.relay env (Some client) s message length w = (Ok s', w') →
     let old := default 0 (Stats w !! proxy.nodeName s') in
     ∃ pre post b head,
       trace w' = trace w ++ pre
         ++ [ELock; EStats (proxy.nodeName s') (wrap32 (old + 1)); EUnlock;
             EWrite b head] ++ post
       ∧ Forall (λ e, is_pool_call e = true) pre
       ∧ Forall (λ e, is_EStats e = false) post
       ∧ proxy.backend s' = Some b
       ∧ slice_to message length = Ok head
       ∧ Stats w' = <[proxy.nodeName s' := wrap32 (old + 1)]> (Stats w)
       ∧ (- 2 ^ 31 ≤ old < 2 ^ 31 - 1 → wrap32 (old + 1) = old + 1)
       ∧ (if proxy.fetch_backend (proxy.annotate s (getAnnotations env message))
          then ∃ p pl free,
                 heap w !! p = Some pl
                 ∧ connections pl = Some b :: free
                 ∧ proxy.cp s' = Some p
                 ∧ proxy.nodeName s' = Name pl
          else proxy.backend s = Some b
               ∧ proxy.cp s' = proxy.cp s
               ∧ proxy.nodeName s' = proxy.nodeName s)
       ∧ (node_of s w → node_of s' w'))
  ∧ (∀ r script ty,
       protocol.GetMessageType (received r).1.1 = Ok ty →
       ty ≠ protocol.QueryMessageType →
       let w1 := after_Receive client script w in
       Stats w1 = Stats w
       ∧ trace w1 = trace w ++ [ERead client]
       ∧ (node_of s w → node_of s w1)
       ∧ (proxy.serve env (Some client) s (r :: script) w = (Ok tt, w1)
          ∨ proxy.serve env (Some client) s (r :: script) w
            = proxy.serve env (Some client) s script w1))
  ∧ node_of proxy.Session0 w.
Proof.
  split; [|split].
  - intros message length s' w' Hrelay old.
    destruct (relay_counts _ _ _ _ _ _ _ _ Hrelay)
      as (pre & post & b & head & Htr & Fpre & Fpost & Hb & Hhead & HSt).
    destruct (relay_choice _ _ _ _ _ _ _ _ Hrelay)
      as (b' & head' & pre' & evs & Hb' & _ & _ & _ & Hchoice & Hnode).
    rewrite Hb in Hb'. injection Hb' as <-.
    exists pre, post, b, head. do 6 (split; [done|]).
    split; [|split; [|exact Hnode]].
    + intros Hold. unfold wrap32. rewrite Z.mod_small by lia. lia.
    + destruct (proxy.fetch_backend _).
      * destruct Hchoice as [(p & others & pl & b0 & free & evs0 & _ & Hpl & Hconn & Hcp
                              & Hb0 & Hname & _) _].
        rewrite Hb in Hb0. injection Hb0 as <-. by exists p, pl, free.
      * destruct Hchoice as (_ & Hcp & Hbk & Hname). by rewrite <- Hbk.
  - intros r script ty Hty HQ w1. split; [done|]. split; [done|]. split; [done|].
    cbn [proxy.serve]. rewrite bind_unfold, Receive_next_eq. fold w1.
    unfold received in *. cbn [fst snd] in Hty. cbv beta iota zeta.
    destruct (rerr r); [by left|].
    rewrite bind_unfold. unfold lift. rewrite Hty.
    rewrite (bool_decide_eq_false_2 _ HQ).
    destruct (bool_decide (ty = protocol.TerminateMessageType)); [by left | by right].
  - by intros p Hp.
Qed.

Lemma stats_incremented_before_forward_witness :
  ∃ pre post b head,
    trace relayed0.2 = trace world0 ++ pre
      ++ [ELock; EStats "n1" 1; EUnlock; EWrite b head] ++ post
    ∧ Stats relayed0.2 = <["n1"%string := 1]> (Stats world0).
Proof.
  destruct (proj1 (stats_incremented_before_forward env0 client1 proxy.Session0 world0)
              (wire frameQ) 6 (session_of relayed0) relayed0.2)
    as (pre & post & b & head & Htr & _ & _ & _ & _ & HSt & _).
  - vm_compute. reflexivity.
  - exists pre, post, b, head. split; [exact Htr | exact HSt].
Defined.

(** C7. [setupPools] does the same whatever the results of the
    authentication exchanges with the backends are; it adds a
    connection to the pool of its node although the exchange failed. *)
Theorem unauthenticated_connection_added :
  (∀ env h w,
     proxy.setupPools (with_authentication h env) w = proxy.setupPools env w)
  ∧ (∀ c response, HandleAuthenticationRequest env_unauthenticated c response = false)
  ∧ (proxy.setupPools env_unauthenticated world_start).1 = Ok tt
  ∧ events_of (proxy.setupPools env_unauthenticated) world_start
    = [EDial "db:5432"; EWrite backend7 []; ERead backend7; EAdd 0 (Some backend7)]
  ∧ heap (proxy.setupPools env_unauthenticated world_start).2 !! 0%nat
    = Some (mkPool "n1" [Some backend7]).
Proof.
  split; [apply setupPools_ignores_authentication|].
  split; [done|]. vm_compute. done.
Qed.

(** C8. With SSL disabled, a client whose first frame carries the
    SSL-request code is sent the single byte 'N'; no upgrade takes
    place; the next frame is read from the same plain connection and,
    unless the client closed the connection, handled as the startup
    message. *)
Theorem ssl_request_refused_then_plaintext env (client : Conn)
    (r1 r2 : ReadResult) (rest : list ReadResult) (w : World) :
  ssl_enable env = false →
  reads w !! fd client = Some (r1 :: r2 :: rest) →
  protocol.GetVersion (received r1).1.1 = Ok protocol.SSLRequestCode →
  ∃ w',
    trace w' = trace w ++ [ERead client; EWrite client [protocol.SSLNotAllowed];
                            ERead client]
    ∧ reads w' !! fd client = Some rest
    ∧ proxy.HandleConnection env client w
      = if bool_decide (rerr r2 = Some EOF) then (Ok tt, w')
        else proxy.session env client (received r2).1.1 (received r2).1.2 w'.
Proof.
  intros Hssl Hreads Hver.
  unfold proxy.HandleConnection.
  rewrite bind_unfold, (Receive_eq _ _ _ _ Hreads).
  destruct (received r1) as [[message1 length1] err1] eqn:Hr1. cbn [fst snd] in Hver.
  rewrite bind_unfold. unfold lift at 1. rewrite Hver.
  rewrite bool_decide_eq_true_2 by done. rewrite Hssl.
  set (w1 := after_Receive client (r2 :: rest) w).
  destruct (Conn_Write_spec client [protocol.SSLNotAllowed] w1)
    as (e & w2 & HW & Htr2 & Hreads2 & _).
  rewrite bind_unfold.
  change (connect.Send (Some client) _) with (Conn_Write client [protocol.SSLNotAllowed]).
  rewrite HW. unfold connect.UpgradeServerConnection. rewrite Hssl, ret_bind.
  assert (reads w2 !! fd client = Some (r2 :: rest)) as Hreads2'.
  { rewrite Hreads2. cbn. apply lookup_insert_eq. }
  rewrite bind_unfold, (Receive_eq _ _ _ _ Hreads2').
  exists (after_Receive client rest w2). split; [|split].
  - cbn. rewrite Htr2. cbn. by rewrite <- !app_assoc.
  - cbn. apply lookup_insert_eq.
  - unfold received. cbv beta iota zeta. cbn [fst snd]. by destruct (bool_decide _).
Qed.

Lemma ssl_request_refused_then_plaintext_witness :
  ∃ w',
    trace w' = trace world_probed ++
      [ERead client1; EWrite client1 [protocol.SSLNotAllowed]; ERead client1]
    ∧ reads w' !! fd client1 = Some []
    ∧ proxy.HandleConnection env0 client1 world_probed
      = proxy.session env0 client1
          (received (mkRead [x00; x00; x00; x08; x00; x03; x00; x00] None)).1.1 8 w'.
Proof.
  apply (ssl_request_refused_then_plaintext env0 client1
           (mkRead (protocol.WriteInt32 (protocol.WriteInt32 [] 8)
                      protocol.SSLRequestCode) None)
           (mkRead [x00; x00; x00; x08; x00; x03; x00; x00] None) [] world_probed).
  - reflexivity.
  - reflexivity.
  - vm_compute. reflexivity.
Defined.

(** C9. In the serving loop, a frame that is neither a terminate nor a
    query message is dropped: the loop goes on to the next read with the
    same session state, and the only trace of the frame is the read
    itself. Nothing is written to a backend or to the client, and the
    statistics, the pools and the lock are left alone. *)
Theorem other_frames_discarded env (client : Conn) (s : proxy.Session)
    (r : ReadResult) (script : list ReadResult) (w : World) (ty : byte) :
  rerr r = None →
  protocol.GetMessageType (received r).1.1 = Ok ty →
  ty ≠ protocol.TerminateMessageType →
  ty ≠ protocol.QueryMessageType →
  let w1 := after_Receive client script w in
  proxy.serve env (Some client) s (r :: script) w
    = proxy.serve env (Some client) s script w1
  ∧ trace w1 = trace w ++ [ERead client]
  ∧ Stats w1 = Stats w ∧ heap w1 = heap w ∧ writes w1 = writes w
  ∧ writePools w1 = writePools w ∧ readPools w1 = readPools w
  ∧ locked w1 = locked w.
Proof.
  intros Herr Hty HX HQ w1. split; [|done].
  cbn [proxy.serve]. rewrite bind_unfold, Receive_next_eq.
  fold w1. unfold received in *. rewrite Herr. cbn [fst snd] in Hty. cbv beta iota zeta.
  rewrite bind_unfold. unfold lift. rewrite Hty.
  rewrite !bool_decide_eq_false_2 by done. done.
Qed.

Lemma other_frames_discarded_witness :
  proxy.serve env0 (Some client1) proxy.Session0 [mkRead (wire frameP) None] world0
  = proxy.serve env0 (Some client1) proxy.Session0 [] (after_Receive client1 [] world0).
Proof.
  apply (other_frames_discarded env0 client1 proxy.Session0 (mkRead (wire frameP) None)
           [] world0 "p").
  - reflexivity.
  - vm_compute. reflexivity.
  - intros H. discriminate H.
  - intros H. discriminate H.
Defined.

(** C10. When the client fails to authenticate, the handler calls
    [err.Error()] without a nil check: it panics exactly when
    [AuthenticateClient] returned no error, and ends the session cleanly
    otherwise. *)
Theorem authentication_failure_dereferences_error env (client : Conn)
    (message : list byte) (length : Z) (err : option error) (w : World) :
  ValidateClient env message = true →
  AuthenticateClient env client message length = (false, err) →
  ((proxy.session env client message length w).1 = Abort Panic ↔ err = None)
  ∧ (err ≠ None → proxy.session env client message length w = (Ok tt, w)).
Proof.
  intros Hv Ha. unfold proxy.session. rewrite Hv, Ha. cbn [negb].
  destruct err as [[|text]|]; cbn; split; try done.
  all: split; intros; done.
Qed.

Lemma authentication_failure_dereferences_error_witness :
  (proxy.session env_unauthenticated client1 [] 0 world0).1 = Abort Panic.
Proof.
  apply (proj1 (authentication_failure_dereferences_error env_unauthenticated client1
                  [] 0 None world0 eq_refl eq_refl)).
  reflexivity.
Defined.

(** ** Further properties *)

(** X1. With SSL disabled [Connect] returns the connection that
    [net.Dial] gave it, with a nil error, and sends nothing on it. *)
Theorem Connect_plain env (host : string) (connection : Conn)
    (ds : list (Conn + error)) (w : World) :
  ssl_enable env = false →
  dials w = inl connection :: ds →
  connect.Connect env host w
  = (Ok (Some connection, None), set_dials ds (emit (EDial host) w)).
Proof.
  intros Hssl Hd. unfold connect.Connect, Dial. exec.
  change (dials (emit (EDial host) w)) with (dials w). rewrite Hd. exec.
  by rewrite Hssl.
Qed.

Lemma Connect_plain_witness :
  connect.Connect env0 "db:5432" world_start
  = (Ok (Some backend7, None), set_dials [] (emit (EDial "db:5432") world_start)).
Proof.
  apply (Connect_plain env0 "db:5432" backend7 [] world_start); reflexivity.
Defined.

(** X2. [Connect] returns a nil connection and the error when the dial
    fails and, with SSL enabled, when the write of the SSL request or
    the read of the answer fails. *)
Theorem Connect_reports_errors env (host : string) (w : World) :
  (∀ err ds,
     dials w = inr err :: ds →
     (connect.Connect env host w).1 = Ok (None, Some err))
  ∧ (∀ connection ds err ws,
       ssl_enable env = true →
       dials w = inl connection :: ds →
       writes w !! fd connection = Some (Some err :: ws) →
       (connect.Connect env host w).1 = Ok (None, Some err))
  ∧ (∀ connection ds d err rs,
       ssl_enable env = true →
       dials w = inl connection :: ds →
       writes w !! fd connection = None →
       reads w !! fd connection = Some (mkRead d (Some err) :: rs) →
       (connect.Connect env host w).1 = Ok (None, Some err)).
Proof.
  split; [|split].
  - intros err ds Hd. unfold connect.Connect, Dial. exec.
    change (dials (emit (EDial host) w)) with (dials w). rewrite Hd. by exec.
  - intros connection ds err ws Hssl Hd Hw. unfold connect.Connect, Dial. exec.
    change (dials (emit (EDial host) w)) with (dials w). rewrite Hd. exec.
    rewrite Hssl. unfold Conn_Write. exec. cbn [writes emit set_dials].
    rewrite Hw. by exec.
  - intros connection ds d err rs Hssl Hd Hw Hr. unfold connect.Connect, Dial. exec.
    change (dials (emit (EDial host) w)) with (dials w). rewrite Hd. exec.
    rewrite Hssl. unfold Conn_Write. exec. cbn [writes emit set_dials].
    rewrite Hw. exec. unfold Conn_Read. exec. cbn [reads emit set_dials].
    rewrite Hr. by exec.
Qed.

Lemma Connect_reports_errors_witness :
  (connect.Connect env_ssl "db:5432"
     (set_dials [inr (OtherError "connection refused")] world_start)).1
  = Ok (None, Some (OtherError "connection refused")).
Proof.
  apply (proj1 (Connect_reports_errors env_ssl "db:5432"
                  (set_dials [inr (OtherError "connection refused")] world_start))
           (OtherError "connection refused") []).
  reflexivity.
Defined.

(** X3. A query that is relayed while the session is in a block and
    holds a pool and a backend stays on that backend: after the update
    of the counter of the node name of the session, the query is
    written to that backend and the answer is forwarded; the pool
    selector and the pools are not touched, and the session is still in
    the block afterwards, with the same pool and backend. *)
Theorem block_keeps_backend env (client : option Conn) (s : proxy.Session)
    (message : list byte) (length : Z) (w : World) (s' : proxy.Session) (w' : World) :
  proxy.relay env client s message length w = (Ok s', w') →
  proxy.statementBlock (proxy.annotate s (getAnnotations env message)) = true →
  is_Some (proxy.cp s) → is_Some (proxy.backend s) →
  proxy.statementBlock s' = true
  ∧ proxy.cp s' = proxy.cp s ∧ proxy.backend s' = proxy.backend s
  ∧ heap w' = heap w ∧ writePools w' = writePools w ∧ readPools w' = readPools w
  ∧ (∃ evs, trace w' = trace w ++ evs ∧ Forall (λ e, is_relay_event e = true) evs)
  ∧ ∃ b head io,
      proxy.backend s = Some b
      ∧ slice_to message length = Ok head
      ∧ Forall (λ e, is_io e = true) io
      ∧ trace w' = trace w ++ forward_events (proxy.nodeName s) b head w ++ io.
Proof.
  intros Hrelay Hsb [p Hp] [c Hc].
  apply relay_footprint in Hrelay
    as (s2 & w2 & b & head & io & Hsel & Hb & Hhead & Hio & Hpools & Hs').
  unfold select in Hsel. cbv zeta in Hsel.
  set (s1 := proxy.annotate s (getAnnotations env message)) in *.
  assert (proxy.cp s1 = proxy.cp s ∧ proxy.backend s1 = proxy.backend s
          ∧ proxy.nodeName s1 = proxy.nodeName s) as (Hcp1 & Hb1 & Hn1).
  { subst s1. unfold proxy.annotate.
    by destruct (getAnnotations env message StartAnnotation),
                (getAnnotations env message EndAnnotation). }
  assert (proxy.fetch_backend s1 = false) as Hf.
  { unfold proxy.fetch_backend. rewrite Hsb, Hcp1, Hb1, Hp, Hc. done. }
  rewrite Hf in Hsel. injection Hsel as <- <-.
  rewrite Hsb in Hs'. destruct Hs' as (-> & Htr & Hheap).
  rewrite Hb1 in Hb. rewrite Hn1 in Htr.
  do 3 (split; [done|]). split; [done|].
  split; [exact (Hpools false)|]. split; [exact (Hpools true)|]. split.
  - eexists. split; [exact Htr|]. unfold forward_events.
    repeat (constructor; [done|]). eapply Forall_impl; [exact Hio|]. by intros [].
  - by exists b, head, io.
Qed.

Lemma block_keeps_backend_witness :
  proxy.statementBlock (session_of relayed_in) = true
  ∧ proxy.cp (session_of relayed_in) = proxy.cp session_in
  ∧ proxy.backend (session_of relayed_in) = proxy.backend session_in
  ∧ heap relayed_in.2 = heap world_in
  ∧ writePools relayed_in.2 = writePools world_in
  ∧ readPools relayed_in.2 = readPools world_in
  ∧ (∃ evs, trace relayed_in.2 = trace world_in ++ evs
            ∧ Forall (λ e, is_relay_event e = true) evs)
  ∧ ∃ b head io,
      proxy.backend session_in = Some b
      ∧ slice_to (wire frameQ) 6 = Ok head
      ∧ Forall (λ e, is_io e = true) io
      ∧ trace relayed_in.2
        = trace world_in ++ forward_events (proxy.nodeName session_in) b head world_in ++ io.
Proof.
  apply (block_keeps_backend env0 (Some client1) session_in (wire frameQ) 6 world_in
           (session_of relayed_in) relayed_in.2).
  - vm_compute. reflexivity.
  - reflexivity.
  - exists 0%nat. reflexivity.
  - exists backend7. reflexivity.
Defined.

(** X5. When the drain loop returns, it has used up a prefix of the
    reads of the backend, has written to the client what each of them
    delivered, in that order and nothing else, and the last read it
    used is the first one whose scan ended on a ready-for-query
    frame. *)
Theorem drain_forwards_verbatim (client backend : Conn) (script : list ReadResult)
    (w w' : World) :
  proxy.drain (Some client) (Some backend) script w = (Ok tt, w') →
  ∃ used r rest,
    script = used ++ r :: rest
    ∧ Forall (λ r, ∃ ty, last_scanned r = Ok ty
                         ∧ ty ≠ protocol.ReadyForQueryMessageType) used
    ∧ last_scanned r = Ok protocol.ReadyForQueryMessageType
    ∧ trace w' = trace w ++ forwarded client backend (used ++ [r])
    ∧ reads w' !! fd backend = Some rest.
Proof.
  revert w. induction script as [|r script IH]; intros w Hd; [done|].
  pose proof (drain_by_last_scanned client backend r script w) as Hstep.
  destruct (last_scanned r) as [last|e] eqn:Hlast; [|by rewrite Hd in Hstep].
  destruct Hstep as (w1 & Htr & Hreads & Hstep). rewrite Hd in Hstep.
  destruct (bool_decide (last = protocol.ReadyForQueryMessageType)) eqn:Hz.
  - apply bool_decide_eq_true_1 in Hz. injection Hstep as <-.
    exists [], r, script. subst last.
    split; [done|]. split; [constructor|]. split; [done|]. split; [|done].
    by rewrite Htr.
  - apply bool_decide_eq_false_1 in Hz. symmetry in Hstep.
    destruct (IH w1 Hstep) as (used & r' & rest & -> & Hused & Hr' & Htr' & Hreads').
    exists (r :: used), r', rest. split; [done|]. split; [constructor; eauto|].
    split; [done|]. split; [|done].
    rewrite Htr', Htr. unfold forwarded. cbn. by rewrite <- !app_assoc.
Qed.

Lemma drain_forwards_verbatim_witness :
  ∃ used r rest,
    answer_in_two = used ++ r :: rest
    ∧ Forall (λ r, ∃ ty, last_scanned r = Ok ty
                         ∧ ty ≠ protocol.ReadyForQueryMessageType) used
    ∧ last_scanned r = Ok protocol.ReadyForQueryMessageType
    ∧ trace (proxy.drain (Some client1) (Some backend7) answer_in_two world0).2
      = trace world0 ++ forwarded client1 backend7 (used ++ [r])
    ∧ reads (proxy.drain (Some client1) (Some backend7) answer_in_two world0).2
        !! fd backend7 = Some rest.
Proof.
  apply (drain_forwards_verbatim client1 backend7 answer_in_two world0
           (proxy.drain (Some client1) (Some backend7) answer_in_two world0).2).
  vm_compute. reflexivity.
Defined.

(** X6. After a read that delivered whole frames and then the header
    of a last frame, with as much of its payload as the read had, the
    scan ends on the type of that last frame, whether its payload is
    whole or not. *)
Theorem last_scanned_begun_frame (fs : list Frame) (f : Frame) (err : option error) :
  Forall well_formed fs →
  begun f →
  (List.length (batch (fs ++ [f])) ≤ size)%nat →
  last_scanned (mkRead (batch (fs ++ [f])) err) = Ok (tag f).
Proof.
  intros Hwf Hf Hlen. rewrite last_scanned_eq. cbn [data].
  rewrite take_ge by done.
  destruct (batch_snoc_nonempty fs f) as (tl & Hb).
  rewrite Hb at 1. cbn [mbind result_bind rbind protocol.GetMessageType].
  apply scan_begun; [done | done |].
  pose proof (batch_length_ge (fs ++ [f])) as Hge. rewrite length_app in Hge.
  cbn [List.length] in Hge. lia.
Qed.

Lemma last_scanned_begun_frame_witness :
  last_scanned (mkRead (batch ([frameZ] ++ [frameD_begun])) None)
  = Ok (tag frameD_begun).
Proof.
  apply (last_scanned_begun_frame [frameZ] frameD_begun None).
  - repeat constructor.
  - vm_compute. intros H. discriminate H.
  - vm_compute. lia.
Defined.

(** X7. A frame whose length field is -1, after whole frames and with
    its header inside the buffer, stops the scan: it comes back to the
    start of that frame in every iteration, whatever the bound on the
    iterations, and the drain loop never writes what the read
    delivered. *)
Theorem frame_length_minus_one_spins (client backend : Conn) (fs : list Frame)
    (ty : byte) (tl : list byte) (err : option error) (rest : list ReadResult)
    (w : World) :
  Forall well_formed fs →
  (List.length (batch fs) + 5 ≤ size)%nat →
  (∀ fuel ty0,
     proxy.scan fuel (received (mkRead (batch (fs ++ [frameM ty tl])) err)).1.1
                (received (mkRead (batch (fs ++ [frameM ty tl])) err)).1.2 0 ty0
     = Abort Spins)
  ∧ proxy.drain (Some client) (Some backend)
      (mkRead (batch (fs ++ [frameM ty tl])) err :: rest) w
    = (Abort Spins, after_Receive backend rest w).
Proof.
  intros Hwf Hlen.
  assert (Hscan : ∀ fuel ty0,
     proxy.scan fuel
       (take size (batch (fs ++ [frameM ty tl]))
        ++ replicate (size - List.length (take size (batch (fs ++ [frameM ty tl])))) x00)
       (Z.of_nat (List.length (take size (batch (fs ++ [frameM ty tl]))))) 0 ty0
     = Abort Spins).
  { intros fuel ty0. rewrite take_stuck_frame by done. rewrite <- app_assoc.
    apply scan_stuck_frame; [done|]. rewrite length_app, wire_length. lia. }
  split; [exact Hscan|].
  pose proof (drain_by_last_scanned client backend
                (mkRead (batch (fs ++ [frameM ty tl])) err) rest w) as Hd.
  rewrite last_scanned_eq in Hd. cbn [data] in Hd.
  assert (∃ ty1, protocol.GetMessageType (take size (batch (fs ++ [frameM ty tl])))
                 = Ok ty1) as [ty1 Hty1].
  { rewrite take_stuck_frame by done. destruct (batch fs); cbn; eauto. }
  rewrite Hty1 in Hd. cbn [mbind result_bind rbind] in Hd.
  by rewrite Hscan in Hd.
Qed.

Lemma frame_length_minus_one_spins_witness :
  (∀ fuel ty0,
     proxy.scan fuel (received (mkRead (batch ([frameD] ++ [frameM "D" []])) None)).1.1
                (received (mkRead (batch ([frameD] ++ [frameM "D" []])) None)).1.2 0 ty0
     = Abort Spins)
  ∧ proxy.drain (Some client1) (Some backend7)
      (mkRead (batch ([frameD] ++ [frameM "D" []])) None :: []) world0
    = (Abort Spins, after_Receive backend7 [] world0).
Proof.
  apply (frame_length_minus_one_spins client1 backend7 [frameD] "D" [] None [] world0).
  - repeat constructor.
  - vm_compute. lia.
Defined.

(** X8. A query without the annotations of a block, relayed outside a
    block, takes the first pool off the channel of its role and puts it
    back at the end, draws the first connection of that pool, counts
    the query for the node of the pool, sends the query on that
    connection, forwards the answer, and gives the connection back to
    the pool; the other channel is untouched. *)
Theorem plain_query_draws_and_returns (env : Env) (client : option Conn)
    (s : proxy.Session) (message : list byte) (length : Z) (w : World)
    (s' : proxy.Session) (w' : World) :
  getAnnotations env message StartAnnotation = false →
  getAnnotations env message EndAnnotation = false →
  proxy.statementBlock s = false →
  proxy.end_ s = false →
  proxy.relay env client s message length w = (Ok s', w') →
  ∃ p others pl b free head io,
    pools_of (getAnnotations env message ReadAnnotation) w = p :: others
    ∧ heap w !! p = Some pl
    ∧ connections pl = Some b :: free
    ∧ slice_to message length = Ok head
    ∧ trace w' = trace w
        ++ [EGetPool (getAnnotations env message ReadAnnotation); ENext p;
            EReturnPool p (getAnnotations env message ReadAnnotation)]
        ++ forward_events (Name pl) b head w
        ++ io ++ [EReturn p (Some b)]
    ∧ Forall (λ e, is_io e = true) io
    ∧ pools_of (getAnnotations env message ReadAnnotation) w' = others ++ [p]
    ∧ pools_of (negb (getAnnotations env message ReadAnnotation)) w'
      = pools_of (negb (getAnnotations env message ReadAnnotation)) w
    ∧ heap w' = <[p := mkPool (Name pl) (free ++ [Some b])]> (heap w)
    ∧ s' = proxy.mkSession false (Some p) (Some b)
             (getAnnotations env message ReadAnnotation) false (Name pl).
Proof.
  intros Hstart Hend Hblock He Hrelay.
  apply relay_footprint in Hrelay
    as (s2 & w2 & b & head & io & Hsel & Hb & Hhead & Hio & Hpools' & Hs').
  unfold select in Hsel. cbv zeta in Hsel.
  unfold proxy.annotate in Hsel. rewrite Hstart, Hend in Hsel.
  unfold proxy.fetch_backend in Hsel. cbn [proxy.statementBlock proxy.end_] in Hsel.
  rewrite Hblock, He in Hsel. cbn [negb andb orb] in Hsel.
  apply fetch_Ok_inv in Hsel
    as (p & others & pl & c & free & Hpools & Hpl & Hconn & -> & Htr2 & Hheap2
        & Hpools2 & Hother2 & Hstats2 & _ & _ & _).
  cbn [proxy.read proxy.statementBlock proxy.backend proxy.cp proxy.nodeName] in *.
  subst c. destruct Hs' as (p' & pl' & Hp' & Hpl' & -> & Htr & Hheap).
  injection Hp' as <-. rewrite Hheap2, lookup_insert_eq in Hpl'. injection Hpl' as <-.
  exists p, others, pl, b, free, head, io. do 4 (split; [done|]).
  split. { rewrite Htr, Htr2. unfold forward_events. by rewrite Hstats2, <- !app_assoc. }
  split; [done|]. split; [by rewrite Hpools'|]. split; [by rewrite Hpools'|].
  split; [|done]. rewrite Hheap, Hheap2. apply insert_twice.
Qed.

Lemma plain_query_draws_and_returns_witness :
  ∃ p others pl b free head io,
    pools_of false world0 = p :: others
    ∧ heap world0 !! p = Some pl
    ∧ connections pl = Some b :: free
    ∧ slice_to (wire frameQ) 6 = Ok head
    ∧ trace relayed0.2 = trace world0
        ++ [EGetPool false; ENext p; EReturnPool p false]
        ++ forward_events (Name pl) b head world0
        ++ io ++ [EReturn p (Some b)]
    ∧ Forall (λ e, is_io e = true) io
    ∧ pools_of false relayed0.2 = others ++ [p]
    ∧ pools_of true relayed0.2 = pools_of true world0
    ∧ heap relayed0.2 = <[p := mkPool (Name pl) (free ++ [Some b])]> (heap world0)
    ∧ session_of relayed0
      = proxy.mkSession false (Some p) (Some b) false false (Name pl).
Proof.
  apply (plain_query_draws_and_returns env0 (Some client1) proxy.Session0 (wire frameQ) 6
           world0 (session_of relayed0) relayed0.2).
  - reflexivity.
  - reflexivity.
  - reflexivity.
  - reflexivity.
  - vm_compute. reflexivity.
Defined.

(** X9. A query that begins a block, relayed by a session that holds no
    pool or no backend, draws a connection in the same way and keeps
    it: the connection is not given back and the session is in the
    block afterwards. *)
Theorem block_start_draws_and_keeps (env : Env) (client : option Conn)
    (s : proxy.Session) (message : list byte) (length : Z) (w : World)
    (s' : proxy.Session) (w' : World) :
  getAnnotations env message StartAnnotation = true →
  proxy.cp s = None ∨ proxy.backend s = None →
  proxy.relay env client s message length w = (Ok s', w') →
  ∃ p others pl b free head io,
    pools_of (getAnnotations env message ReadAnnotation) w = p :: others
    ∧ heap w !! p = Some pl
    ∧ connections pl = Some b :: free
    ∧ slice_to message length = Ok head
    ∧ trace w' = trace w
        ++ [EGetPool (getAnnotations env message ReadAnnotation); ENext p;
            EReturnPool p (getAnnotations env message ReadAnnotation)]
        ++ forward_events (Name pl) b head w
        ++ io
    ∧ Forall (λ e, is_io e = true) io
    ∧ pools_of (getAnnotations env message ReadAnnotation) w' = others ++ [p]
    ∧ pools_of (negb (getAnnotations env message ReadAnnotation)) w'
      = pools_of (negb (getAnnotations env message ReadAnnotation)) w
    ∧ heap w' = <[p := mkPool (Name pl) free]> (heap w)
    ∧ s' = proxy.mkSession true (Some p) (Some b)
             (getAnnotations env message ReadAnnotation) (proxy.end_ s) (Name pl).
Proof.
  intros Hstart Hnil Hrelay.
  apply relay_footprint in Hrelay
    as (s2 & w2 & b & head & io & Hsel & Hb & Hhead & Hio & Hpools' & Hs').
  unfold select in Hsel. cbv zeta in Hsel.
  assert (proxy.fetch_backend (proxy.annotate s (getAnnotations env message)) = true)
    as Hf.
  { unfold proxy.fetch_backend, proxy.annotate. rewrite Hstart.
    cbn [proxy.statementBlock proxy.end_ proxy.cp proxy.backend].
    destruct Hnil as [-> | ->]; [done | by rewrite orb_true_r]. }
  rewrite Hf in Hsel. unfold proxy.annotate in Hsel. rewrite Hstart in Hsel.
  cbn [negb andb orb] in Hsel.
  apply fetch_Ok_inv in Hsel
    as (p & others & pl & c & free & Hpools & Hpl & Hconn & -> & Htr2 & Hheap2
        & Hpools2 & Hother2 & Hstats2 & _ & _ & _).
  cbn [proxy.read proxy.statementBlock proxy.backend proxy.cp proxy.nodeName
       proxy.end_] in *.
  subst c. destruct Hs' as (-> & Htr & Hheap).
  exists p, others, pl, b, free, head, io. do 4 (split; [done|]).
  split. { rewrite Htr, Htr2. unfold forward_events. by rewrite Hstats2, <- !app_assoc. }
  split; [done|]. split; [by rewrite Hpools'|]. split; [by rewrite Hpools'|].
  split; [|done]. by rewrite Hheap, Hheap2.
Qed.

Lemma block_start_draws_and_keeps_witness :
  ∃ p others pl b free head io,
    pools_of false world0 = p :: others
    ∧ heap world0 !! p = Some pl
    ∧ connections pl = Some b :: free
    ∧ slice_to (wire frameStart) 6 = Ok head
    ∧ trace relayed_start.2 = trace world0
        ++ [EGetPool false; ENext p; EReturnPool p false]
        ++ forward_events (Name pl) b head world0
        ++ io
    ∧ Forall (λ e, is_io e = true) io
    ∧ pools_of false relayed_start.2 = others ++ [p]
    ∧ pools_of true relayed_start.2 = pools_of true world0
    ∧ heap relayed_start.2 = <[p := mkPool (Name pl) free]> (heap world0)
    ∧ session_of relayed_start
      = proxy.mkSession true (Some p) (Some b) false false (Name pl).
Proof.
  apply (block_start_draws_and_keeps env_annotated (Some client1) proxy.Session0
           (wire frameStart) 6 world0 (session_of relayed_start) relayed_start.2).
  - reflexivity.
  - left. reflexivity.
  - vm_compute. reflexivity.
Defined.

(** X10. A query that ends a block, relayed by a session that holds a
    pool and a backend, draws nothing: it is sent on that backend, which
    is then given back to that pool, and the session is outside the
    block afterwards, with the end-of-block flag reset. *)
Theorem block_end_returns_backend (env : Env) (client : option Conn)
    (s : proxy.Session) (message : list byte) (length : Z) (w : World)
    (s' : proxy.Session) (w' : World) (p : nat) (b : Conn) :
  getAnnotations env message StartAnnotation = false →
  getAnnotations env message EndAnnotation = true →
  proxy.cp s = Some p → proxy.backend s = Some b →
  proxy.relay env client s message length w = (Ok s', w') →
  ∃ pl head io,
    heap w !! p = Some pl
    ∧ slice_to message length = Ok head
    ∧ trace w' = trace w ++ forward_events (proxy.nodeName s) b head w
                   ++ io ++ [EReturn p (Some b)]
    ∧ Forall (λ e, is_io e = true) io
    ∧ writePools w' = writePools w ∧ readPools w' = readPools w
    ∧ heap w' = <[p := mkPool (Name pl) (connections pl ++ [Some b])]> (heap w)
    ∧ s' = proxy.mkSession false (Some p) (Some b)
             (getAnnotations env message ReadAnnotation) false (proxy.nodeName s).
Proof.
  intros Hstart Hend Hcp Hbackend Hrelay.
  apply relay_footprint in Hrelay
    as (s2 & w2 & b' & head & io & Hsel & Hb & Hhead & Hio & Hpools' & Hs').
  unfold select in Hsel. cbv zeta in Hsel.
  unfold proxy.annotate in Hsel. rewrite Hstart, Hend in Hsel.
  unfold proxy.fetch_backend in Hsel.
  cbn [proxy.statementBlock proxy.end_ proxy.cp proxy.backend] in Hsel.
  rewrite Hcp, Hbackend in Hsel. cbn in Hsel. injection Hsel as <- <-.
  cbn [proxy.read proxy.statementBlock proxy.backend proxy.cp proxy.nodeName
       proxy.end_] in *.
  injection Hb as <-.
  destruct Hs' as (p' & pl & Hp' & Hpl & -> & Htr & Hheap).
  injection Hp' as <-.
  exists pl, head, io. do 4 (split; [done|]).
  split; [exact (Hpools' false)|]. split; [exact (Hpools' true)|]. done.
Qed.

Lemma block_end_returns_backend_witness :
  ∃ pl head io,
    heap world_in !! 0%nat = Some pl
    ∧ slice_to (wire frameEnd) 6 = Ok head
    ∧ trace relayed_end.2 = trace world_in ++ forward_events "n1" backend7 head world_in
                   ++ io ++ [EReturn 0%nat (Some backend7)]
    ∧ Forall (λ e, is_io e = true) io
    ∧ writePools relayed_end.2 = writePools world_in
    ∧ readPools relayed_end.2 = readPools world_in
    ∧ heap relayed_end.2
      = <[0%nat := mkPool (Name pl) (connections pl ++ [Some backend7])]> (heap world_in)
    ∧ session_of relayed_end
      = proxy.mkSession false (Some 0%nat) (Some backend7) false false "n1".
Proof.
  apply (block_end_returns_backend env_annotated (Some client1) session_in
           (wire frameEnd) 6 world_in (session_of relayed_end) relayed_end.2
           0%nat backend7).
  - reflexivity.
  - reflexivity.
  - reflexivity.
  - reflexivity.
  - vm_compute. reflexivity.
Defined.

(** X11. A query that begins a block right after a query outside a
    block draws nothing: it is sent on the backend of the earlier
    query, which that query gave back to its pool and which is in the
    free set of the pool while the session is in the block. *)
Theorem block_after_plain_query_draws_nothing (env : Env) (client : option Conn)
    (s : proxy.Session) (message1 : list byte) (length1 : Z)
    (message2 : list byte) (length2 : Z) (w : World)
    (s1 : proxy.Session) (w1 : World) (s2 : proxy.Session) (w2 : World) :
  getAnnotations env message1 StartAnnotation = false →
  getAnnotations env message1 EndAnnotation = false →
  proxy.statementBlock s = false →
  proxy.end_ s = false →
  proxy.relay env client s message1 length1 w = (Ok s1, w1) →
  getAnnotations env message2 StartAnnotation = true →
  proxy.relay env client s1 message2 length2 w1 = (Ok s2, w2) →
  ∃ p pl b head io,
    proxy.statementBlock s2 = true
    ∧ proxy.cp s2 = Some p ∧ proxy.cp s1 = Some p
    ∧ proxy.backend s2 = Some b ∧ proxy.backend s1 = Some b
    ∧ heap w2 = heap w1
    ∧ heap w2 !! p = Some pl
    ∧ Some b ∈ connections pl
    ∧ slice_to message2 length2 = Ok head
    ∧ trace w2 = trace w1 ++ forward_events (proxy.nodeName s1) b head w1 ++ io
    ∧ Forall (λ e, is_io e = true) io.
Proof.
  intros Hstart1 Hend1 Hblock He Hrelay1 Hstart2 Hrelay2.
  apply relay_footprint in Hrelay1
    as (s1' & w1' & b & head1 & io1 & Hsel1 & Hb1 & _ & _ & _ & Hs1).
  unfold select in Hsel1. cbv zeta in Hsel1.
  unfold proxy.annotate in Hsel1. rewrite Hstart1, Hend1 in Hsel1.
  unfold proxy.fetch_backend in Hsel1.
  cbn [proxy.statementBlock proxy.end_] in Hsel1.
  rewrite Hblock, He in Hsel1. cbn [negb andb orb] in Hsel1.
  apply fetch_Ok_inv in Hsel1
    as (p & others & pl & c & free & _ & _ & _ & -> & _ & Hheap1 & _).
  cbn [proxy.read proxy.statementBlock proxy.backend proxy.cp proxy.nodeName] in *.
  subst c. destruct Hs1 as (p' & pl' & Hp' & Hpl' & -> & _ & Hheapw1).
  injection Hp' as <-. rewrite Hheap1, lookup_insert_eq in Hpl'. injection Hpl' as <-.
  cbn [Name connections] in Hheapw1.
  apply relay_footprint in Hrelay2
    as (s2' & w2' & b2 & head & io & Hsel2 & Hb2 & Hhead & Hio & _ & Hs2).
  unfold select in Hsel2. cbv zeta in Hsel2.
  unfold proxy.annotate, reset_end in Hsel2. rewrite Hstart2 in Hsel2.
  cbn in Hsel2. injection Hsel2 as <- <-.
  cbn [proxy.statementBlock proxy.backend proxy.cp proxy.nodeName] in *.
  injection Hb2 as <-. destruct Hs2 as (-> & Htr & Hheap2).
  exists p, (mkPool (Name pl) (free ++ [Some b])), b, head, io.
  do 6 (split; [done|]).
  split. { rewrite Hheap2, Hheapw1. apply lookup_insert_eq. }
  split. { cbn [connections]. apply elem_of_app. right. by left. }
  done.
Qed.

Lemma block_after_plain_query_draws_nothing_witness :
  ∃ p pl b head io,
    proxy.statementBlock (session_of relayed_plain_start) = true
    ∧ proxy.cp (session_of relayed_plain_start) = Some p
    ∧ proxy.cp (session_of relayed_plain) = Some p
    ∧ proxy.backend (session_of relayed_plain_start) = Some b
    ∧ proxy.backend (session_of relayed_plain) = Some b
    ∧ heap relayed_plain_start.2 = heap relayed_plain.2
    ∧ heap relayed_plain_start.2 !! p = Some pl
    ∧ Some b ∈ connections pl
    ∧ slice_to (wire frameStart) 6 = Ok head
    ∧ trace relayed_plain_start.2
      = trace relayed_plain.2
          ++ forward_events (proxy.nodeName (session_of relayed_plain)) b head
                            relayed_plain.2 ++ io
    ∧ Forall (λ e, is_io e = true) io.
Proof.
  apply (block_after_plain_query_draws_nothing env_annotated (Some client1) proxy.Session0
           (wire frameQ) 6 (wire frameStart) 6 world_twice
           (session_of relayed_plain) relayed_plain.2
           (session_of relayed_plain_start) relayed_plain_start.2).
  - reflexivity.
  - reflexivity.
  - reflexivity.
  - reflexivity.
  - vm_compute. reflexivity.
  - reflexivity.
  - vm_compute. reflexivity.
Defined.

(** X12. When the loop of [HandleConnection] returns, it does so at the
    first read of the client that reports an error or delivers a
    terminate message, right after that read: the read is the last
    event. *)
Theorem serve_returns_at_first_closing_read (env : Env) (client : Conn)
    (s : proxy.Session) (script : list ReadResult) (w w' : World) :
  proxy.serve env (Some client) s script w = (Ok tt, w') →
  ∃ used r rest,
    script = used ++ r :: rest
    ∧ Forall (λ r, closing r = false) used
    ∧ closing r = true
    ∧ reads w' !! fd client = Some rest
    ∧ last (trace w') = Some (ERead client).
Proof.
  revert s w. induction script as [|r script IH]; intros s w Hserve; [done|].
  cbn [proxy.serve] in Hserve. rewrite bind_unfold, Receive_next_eq in Hserve.
  assert (Hnow : closing r = true →
                 (Ok tt, after_Receive client script w) = (Ok tt, w') →
                 ∃ used r0 rest, r :: script = used ++ r0 :: rest
                   ∧ Forall (λ r, closing r = false) used ∧ closing r0 = true
                   ∧ reads w' !! fd client = Some rest
                   ∧ last (trace w') = Some (ERead client)).
  { intros Hc [= <-]. exists [], r, script. do 3 (split; [done|]).
    unfold after_Receive. cbn [reads set_reads trace emit].
    by rewrite lookup_insert_eq, last_snoc. }
  assert (Hlater : closing r = false → ∀ s1 w1,
                   proxy.serve env (Some client) s1 script w1 = (Ok tt, w') →
                 ∃ used r0 rest, r :: script = used ++ r0 :: rest
                   ∧ Forall (λ r, closing r = false) used ∧ closing r0 = true
                   ∧ reads w' !! fd client = Some rest
                   ∧ last (trace w') = Some (ERead client)).
  { intros Hc s1 w1 H1.
    destruct (IH s1 w1 H1) as (used & r0 & rest & -> & Hused & Hr0 & Hreads & Hlast).
    exists (r :: used), r0, rest. split; [done|]. split; [by constructor|]. done. }
  unfold closing in Hnow, Hlater.
  assert (Herr : rerr r = (received r).2) by reflexivity. rewrite Herr in Hnow, Hlater.
  destruct (received r) as [[message length] err]. cbn [fst snd] in Hnow, Hlater.
  destruct err as [e|]; [by apply Hnow|].
  rewrite bind_unfold in Hserve.
  destruct (protocol.GetMessageType message) as [messageType|e]; [|done].
  cbn [lift] in Hserve.
  destruct (bool_decide (messageType = protocol.TerminateMessageType));
    [by apply Hnow|].
  destruct (bool_decide (messageType = protocol.QueryMessageType)).
  - apply bind_Ok_inv in Hserve as (s1 & w1 & _ & Hserve). by eapply Hlater.
  - by eapply Hlater.
Qed.

Lemma serve_returns_at_first_closing_read_witness :
  ∃ used r rest,
    client_script = used ++ r :: rest
    ∧ Forall (λ r, closing r = false) used
    ∧ closing r = true
    ∧ reads (proxy.serve env0 (Some client1) proxy.Session0 client_script world0).2
        !! fd client1 = Some rest
    ∧ last (trace (proxy.serve env0 (Some client1) proxy.Session0 client_script
                     world0).2)
      = Some (ERead client1).
Proof.
  apply (serve_returns_at_first_closing_read env0 client1 proxy.Session0 client_script
           world0 (proxy.serve env0 (Some client1) proxy.Session0 client_script world0).2).
  vm_compute. reflexivity.
Defined.

(** X13. A client whose first frame is not an SSL request and fails the
    validation is sent the error message and nothing else, the handler
    returns, and the statistics, the pools and the lock are untouched;
    this does not depend on the error that the first read reported. *)
Theorem invalid_client_is_sent_error (env : Env) (client : Conn) (r : ReadResult)
    (rest : list ReadResult) (version : Z) (w : World) :
  reads w !! fd client = Some (r :: rest) →
  protocol.GetVersion (received r).1.1 = Ok version →
  version ≠ protocol.SSLRequestCode →
  ValidateClient env (received r).1.1 = false →
  ∃ w',
    proxy.HandleConnection env client w = (Ok tt, w')
    ∧ trace w' = trace w ++ [ERead client; EWrite client (pgErrorMessage env)]
    ∧ same_proxy w w'.
Proof.
  intros Hreads Hversion Hplain Hinvalid. unfold proxy.HandleConnection.
  rewrite bind_unfold, (Receive_eq client r rest w Hreads).
  destruct (received r) as [[message length] err]. cbn [fst] in *.
  rewrite Hversion. exec. rewrite bool_decide_eq_false_2 by done.
  unfold proxy.session. rewrite Hinvalid. cbn [negb]. unfold connect.Send. exec.
  destruct (Conn_Write_spec client (pgErrorMessage env) (after_Receive client rest w))
    as (e & w' & HW & Htr & _ & Hsame).
  rewrite bind_unfold, HW. eexists. split; [reflexivity|].
  split; [rewrite Htr; cbn; by rewrite <- app_assoc|].
  destruct Hsame as (? & ? & ? & ? & ?). done.
Qed.

Lemma invalid_client_is_sent_error_witness :
  ∃ w',
    proxy.HandleConnection env_invalid client1 world_session = (Ok tt, w')
    ∧ trace w' = trace world_session
                   ++ [ERead client1; EWrite client1 (pgErrorMessage env_invalid)]
    ∧ same_proxy world_session w'.
Proof.
  apply (invalid_client_is_sent_error env_invalid client1
           (mkRead [x00; x00; x00; x08; x00; x03; x00; x00] None)
           [mkRead (wire frameQ) None; mkRead (wire frameX) None] 196608 world_session).
  - vm_compute. reflexivity.
  - vm_compute. reflexivity.
  - vm_compute. intros H. discriminate H.
  - reflexivity.
Defined.

(** X14. Started with the lock of the proxy free, [HandleConnection]
    leaves it free however it ends: by a return, a fault or a wait
    that never ends. *)
Theorem HandleConnection_leaves_lock_free (env : Env) (client : Conn) (w : World) :
  locked w = false → locked (proxy.HandleConnection env client w).2 = false.
Proof.
  assert (run lock_free (proxy.HandleConnection env client) w) as H; [|exact H].
  unfold proxy.HandleConnection.
  apply run_bind; [tc_solve | | intros [[message length] err] w1].
  { apply same_proxy_lock_free, Receive_same. }
  apply run_bind; [tc_solve | apply run_lift; tc_solve | intros version w2].
  destruct (bool_decide _); [|apply session_lock_free].
  apply run_bind; [tc_solve | | intros _ w3].
  { apply same_proxy_lock_free, Send_same. }
  apply run_bind; [tc_solve | | intros client' w4].
  { unfold connect.UpgradeServerConnection. destruct (ssl_enable env); run_auto; by unfold lock_free. }
  apply run_bind; [tc_solve | | intros [[message' length'] err'] w5].
  { apply same_proxy_lock_free, Receive_same. }
  destruct (bool_decide _); [apply run_ret; tc_solve | apply session_lock_free].
Qed.

Lemma HandleConnection_leaves_lock_free_witness :
  locked (proxy.HandleConnection env0 client1 world_session).2 = false.
Proof.
  apply (HandleConnection_leaves_lock_free env0 client1 world_session). reflexivity.
Defined.

(** X15. However [HandleConnection] ends, it has closed no connection,
    dialled none and added none to a pool. *)
Theorem HandleConnection_closes_nothing (env : Env) (client : Conn) (w : World) :
  ∃ evs, trace (proxy.HandleConnection env client w).2 = trace w ++ evs
         ∧ Forall (λ e, is_session_event e = true) evs.
Proof.
  assert (run (adds is_session_event) (proxy.HandleConnection env client) w) as H;
    [|exact H].
  unfold proxy.HandleConnection.
  apply run_bind; [tc_solve | | intros [[message length] err] w1].
  { by apply Receive_adds. }
  apply run_bind; [tc_solve | apply run_lift; tc_solve | intros version w2].
  destruct (bool_decide _); [|apply session_session_events].
  apply run_bind; [tc_solve | | intros _ w3].
  { by apply Send_adds. }
  apply run_bind; [tc_solve | | intros client' w4].
  { unfold connect.UpgradeServerConnection.
    destruct (ssl_enable env); run_auto; by apply adds_emit. }
  apply run_bind; [tc_solve | | intros [[message' length'] err'] w5].
  { by apply Receive_adds. }
  destruct (bool_decide _); [apply run_ret; tc_solve | apply session_session_events].
Qed.

(** X16. When [setupPools] returns it has made one pool for each node,
    under the name of the node and with as many connections as the
    pool capacity; the write pools are those of the master nodes and
    the read pools those of the other nodes, each in the order of the
    loop. *)
Theorem setupPools_pools_by_role (env : Env) (w w' : World) :
  proxy.setupPools env w = (Ok tt, w') →
  ∃ ps,
    pools_made (GetPoolCapacity env) w' ps (GetNodes env)
    ∧ NoDup ps
    ∧ writePools w' = masters ps (GetNodes env)
    ∧ readPools w' = replicas ps (GetNodes env).
Proof.
  unfold proxy.setupPools. cbv zeta. intros H. exec_in H.
  apply seed_nodes_Ok_inv in H as (ps & Hmade & Hnodup & _ & _ & Hwp & Hrp).
  exists ps. done.
Qed.

Lemma setupPools_pools_by_role_witness :
  ∃ ps,
    pools_made (GetPoolCapacity env0) (proxy.setupPools env0 world_start).2 ps
               (GetNodes env0)
    ∧ NoDup ps
    ∧ writePools (proxy.setupPools env0 world_start).2 = masters ps (GetNodes env0)
    ∧ readPools (proxy.setupPools env0 world_start).2 = replicas ps (GetNodes env0).
Proof.
  apply (setupPools_pools_by_role env0 world_start (proxy.setupPools env0 world_start).2).
  vm_compute. reflexivity.
Defined.

(** X17. When the first dial fails, [setupPools] faults at the write of
    the startup message on the nil connection, before the error of
    [Connect] is looked at. *)
Theorem setupPools_panics_on_failed_dial (env : Env) (name : string) (node : Node)
    (nodes : list (string * Node)) (err : error) (ds : list (Conn + error))
    (w : World) :
  GetNodes env = (name, node) :: nodes →
  0 < GetPoolCapacity env →
  dials w = inr err :: ds →
  (proxy.setupPools env w).1 = Abort Panic
  ∧ trace (proxy.setupPools env w).2 = trace w ++ [EDial (HostPort node)].
Proof.
  intros Hnodes Hcap Hd. unfold proxy.setupPools. cbv zeta. rewrite Hnodes. exec.
  cbn [proxy.seed_nodes]. unfold proxy.NewPool. exec.
  destruct (Z.to_nat (GetPoolCapacity env)) as [|n] eqn:Hn; [lia|].
  cbn [proxy.seed]. unfold connect.Connect, Dial.
  destruct (bool_decide (Role node = NODE_ROLE_MASTER)); exec;
    cbn [dials emit set_heap set_writePools set_readPools]; rewrite Hd; exec; done.
Qed.

Lemma setupPools_panics_on_failed_dial_witness :
  (proxy.setupPools env0 world_unreachable).1 = Abort Panic
  ∧ trace (proxy.setupPools env0 world_unreachable).2
    = trace world_unreachable ++ [EDial (HostPort (mkNode "db:5432" NODE_ROLE_MASTER))].
Proof.
  apply (setupPools_panics_on_failed_dial env0 "n1" (mkNode "db:5432" NODE_ROLE_MASTER) []
           (OtherError "connection refused") [] world_unreachable).
  - reflexivity.
  - reflexivity.
  - reflexivity.
Defined.

(** X18. With SSL enabled and no error of the dial, the write and the
    read, [Connect] upgrades the connection if the first byte that the
    read delivered is 'S' and closes it otherwise, also when the read
    delivered nothing; in both cases it returns a connection and a nil
    error. *)
Theorem Connect_upgrades_iff_S (env : Env) (host : string) (connection : Conn)
    (r : ReadResult) (ds : list (Conn + error)) (rs : list ReadResult) (w : World) :
  ssl_enable env = true →
  dials w = inl connection :: ds →
  writes w !! fd connection = None →
  reads w !! fd connection = Some (r :: rs) →
  rerr r = None →
  ∃ w',
    connect.Connect env host w
    = (Ok (Some (if bool_decide (head (data r) = Some protocol.SSLAllowed)
                 then mkConn (fd connection) true else connection), None), w')
    ∧ trace w' = trace w ++
        [EDial host;
         EWrite connection (protocol.WriteInt32 (protocol.WriteInt32 [] 8)
                                                protocol.SSLRequestCode);
         ERead connection;
         if bool_decide (head (data r) = Some protocol.SSLAllowed)
         then EUpgradeClient connection else EClose connection].
Proof.
  intros Hssl Hd Hw Hr Herr. unfold connect.Connect, Dial. exec.
  change (dials (emit (EDial host) w)) with (dials w). rewrite Hd. exec.
  rewrite Hssl. unfold Conn_Write. exec. cbn [writes emit set_dials].
  rewrite Hw. exec. unfold Conn_Read. exec. cbn [reads emit set_dials].
  rewrite Hr. exec. unfold received. rewrite Herr. cbv beta iota zeta.
  assert (Hlen : (0 < List.length (take size (data r)
             ++ replicate (size - List.length (take size (data r))) x00))%nat).
  { rewrite length_app, length_replicate, length_take. unfold size. lia. }
  rewrite (bool_decide_eq_true_2 _ Hlen). cbn [andb].
  assert (Hfirst : (take size (data r)
             ++ replicate (size - List.length (take size (data r))) x00) !! 0%nat
            = Some (default x00 (head (data r)))).
  { destruct (data r) as [|b tl]; [reflexivity|]. reflexivity. }
  rewrite Hfirst. clear Hlen Hfirst.
  unfold protocol.SSLAllowed.
  destruct (head (data r)) as [b|] eqn:Hhead; cbn [default].
  - destruct (decide (b = "S"%byte)) as [->|Hb].
    + rewrite !(bool_decide_eq_true_2 (Some "S"%byte = Some "S"%byte)) by done.
      cbn [negb].
      unfold connect.UpgradeClientConnection. exec.
      eexists. split; [reflexivity|]. cbn. by rewrite <- !app_assoc.
    + rewrite !(bool_decide_eq_false_2 (Some b = Some "S"%byte)) by congruence.
      cbn [negb].
      unfold Conn_Close. exec.
      eexists. split; [reflexivity|]. cbn. by rewrite <- !app_assoc.
  - rewrite (bool_decide_eq_false_2 (Some x00 = Some "S"%byte)) by congruence.
    rewrite (bool_decide_eq_false_2 (None = Some "S"%byte)) by congruence.
    cbn [negb].
    unfold Conn_Close. exec.
    eexists. split; [reflexivity|]. cbn. by rewrite <- !app_assoc.
Qed.

Lemma Connect_upgrades_iff_S_witness :
  ∃ w',
    connect.Connect env_ssl "db:5432" world_accepting
    = (Ok (Some (if bool_decide (head (data (mkRead ["S"%byte] None))
                                 = Some protocol.SSLAllowed)
                 then mkConn (fd backend7) true else backend7), None), w')
    ∧ trace w' = trace world_accepting ++
        [EDial "db:5432";
         EWrite backend7 (protocol.WriteInt32 (protocol.WriteInt32 [] 8)
                                              protocol.SSLRequestCode);
         ERead backend7;
         if bool_decide (head (data (mkRead ["S"%byte] None)) = Some protocol.SSLAllowed)
         then EUpgradeClient backend7 else EClose backend7].
Proof.
  apply (Connect_upgrades_iff_S env_ssl "db:5432" backend7 (mkRead ["S"%byte] None) [] []
           world_accepting); reflexivity.
Defined.

(** X19. A query for which a backend is to be fetched waits for ever
    in [getPool] when the channel of pools for its read flag is empty,
    before anything else is done for it. *)
Theorem query_waits_without_pool (env : Env) (client : option Conn)
    (s : proxy.Session) (message : list byte) (length : Z) (w : World) :
  proxy.fetch_backend (proxy.annotate s (getAnnotations env message)) = true →
  pools_of (getAnnotations env message ReadAnnotation) w = [] →
  proxy.relay env client s message length w
  = (Abort Blocks, emit (EGetPool (getAnnotations env message ReadAnnotation)) w).
Proof.
  intros Hfetch Hpools. unfold proxy.relay. cbv zeta. rewrite Hfetch.
  unfold proxy.fetch, proxy.getPool. exec.
  assert (Hread : proxy.read (proxy.annotate s (getAnnotations env message))
                  = getAnnotations env message ReadAnnotation) by reflexivity.
  rewrite Hread. unfold pools_of in Hpools.
  destruct (getAnnotations env message ReadAnnotation).
  - change (readPools (emit (EGetPool true) w)) with (readPools w).
    rewrite Hpools. reflexivity.
  - change (writePools (emit (EGetPool false) w)) with (writePools w).
    rewrite Hpools. reflexivity.
Qed.

Lemma query_waits_without_pool_witness :
  proxy.relay env_annotated (Some client1) proxy.Session0 (wire frameRead) 6 world0
  = (Abort Blocks,
     emit (EGetPool (getAnnotations env_annotated (wire frameRead) ReadAnnotation))
          world0).
Proof.
  apply (query_waits_without_pool env_annotated (Some client1) proxy.Session0
           (wire frameRead) 6 world0).
  - reflexivity.
  - reflexivity.
Defined.

(** X20. Whatever the loop of [HandleConnection] writes, to a backend or
    to the client, is what a read delivered: the bytes [message[:length]]
    of a read of the client or of a read that was to come on some
    socket when the loop began. *)
Theorem serve_writes_only_what_it_read (env : Env) (client : option Conn)
    (s : proxy.Session) (script : list ReadResult) (w : World) :
  ∃ evs,
    trace (proxy.serve env client s script w).2 = trace w ++ evs
    ∧ ∀ c m, EWrite c m ∈ evs →
        ∃ r, (r ∈ script ∨ readable w r) ∧ m = take size (data r).
Proof.
  pose proof (serve_relays_only (λ r, r ∈ script ∨ readable w r) env client script s w)
    as H.
  unfold run, relays_only in H. apply H.
  - apply Forall_forall. by left.
  - by right.
Qed.

(** X21. When [Connect] returns, it returns either a connection and a
    nil error, or a nil connection and an error. *)
Theorem Connect_connection_xor_error (env : Env) (host : string) (w : World)
    (connection : option Conn) (err : option error) (w' : World) :
  connect.Connect env host w = (Ok (connection, err), w') →
  (is_Some connection ∧ err = None) ∨ (connection = None ∧ is_Some err).
Proof.
  intros H. destruct connection as [c|].
  - left. split; [eauto|]. by eapply Connect_Some_nil.
  - right. split; [done|]. by eapply Connect_None_error.
Qed.

Lemma Connect_connection_xor_error_witness :
  (is_Some (Some backend7) ∧ (None : option error) = None)
  ∨ (Some backend7 = None ∧ is_Some (None : option error)).
Proof.
  apply (Connect_connection_xor_error env0 "db:5432" world_start (Some backend7) None
           (connect.Connect env0 "db:5432" world_start).2).
  vm_compute. reflexivity.
Defined.

(** X22. When the loop of [HandleConnection] returns and no query of
    the session began or ended a block, every pool has the free
    connections it had before, and each channel the pools it had, in
    some order: every backend that was drawn has been given back. *)
Theorem session_without_blocks_returns_backends (env : Env) (client : Conn)
    (s : proxy.Session) (script : list ReadResult) (w w' : World) :
  (∀ message, getAnnotations env message StartAnnotation = false) →
  (∀ message, getAnnotations env message EndAnnotation = false) →
  proxy.statementBlock s = false →
  proxy.end_ s = false →
  proxy.serve env (Some client) s script w = (Ok tt, w') →
  same_pools w w'.
Proof.
  intros Hstart Hend. revert s w.
  induction script as [|r script IH]; intros s w Hblock He Hserve; [done|].
  cbn [proxy.serve] in Hserve. rewrite bind_unfold, Receive_next_eq in Hserve.
  assert (H1 : same_pools w (after_Receive client script w)).
  { apply same_proxy_same_pools. done. }
  destruct (received r) as [[message length] err].
  destruct err as [e|]; [by injection Hserve as <-|].
  rewrite bind_unfold in Hserve.
  destruct (protocol.GetMessageType message) as [messageType|e]; [|done].
  cbn [lift] in Hserve.
  destruct (bool_decide (messageType = protocol.TerminateMessageType));
    [by injection Hserve as <-|].
  destruct (bool_decide (messageType = protocol.QueryMessageType)).
  - apply bind_Ok_inv in Hserve as (s1 & w1 & Hrelay & Hserve).
    apply relay_plain_same_pools in Hrelay as (H2 & Hblock1 & He1); [|done..].
    eapply same_pools_trans; [exact H1|]. eapply same_pools_trans; [exact H2|].
    by eapply IH.
  - eapply same_pools_trans; [exact H1|]. by eapply IH.
Qed.

Lemma session_without_blocks_returns_backends_witness :
  same_pools world0
    (proxy.serve env0 (Some client1) proxy.Session0 query_script world0).2.
Proof.
  apply (session_without_blocks_returns_backends env0 client1 proxy.Session0 query_script
           world0 (proxy.serve env0 (Some client1) proxy.Session0 query_script world0).2).
  - intros message. reflexivity.
  - intros message. reflexivity.
  - reflexivity.
  - reflexivity.
  - vm_compute. reflexivity.
Defined.

(** X23. When the session ends right after the query that began a
    block, the backend that this query drew is not given back: the loop
    returns with that connection out of the free set of its pool. *)
Theorem session_ended_in_block_keeps_backend (env : Env) (client : Conn)
    (s : proxy.Session) (r1 r2 : ReadResult) (rest : list ReadResult) (w w' : World) :
  rerr r1 = None →
  protocol.GetMessageType (received r1).1.1 = Ok protocol.QueryMessageType →
  getAnnotations env (received r1).1.1 StartAnnotation = true →
  proxy.cp s = None ∨ proxy.backend s = None →
  closing r2 = true →
  proxy.serve env (Some client) s (r1 :: r2 :: rest) w = (Ok tt, w') →
  ∃ p pl b free,
    heap w !! p = Some pl
    ∧ connections pl = Some b :: free
    ∧ heap w' = <[p := mkPool (Name pl) free]> (heap w)
    ∧ last (trace w') = Some (ERead client).
Proof.
  intros Herr Hquery Hstart Hnil Hclosing Hserve.
  cbn [proxy.serve] in Hserve. rewrite bind_unfold, Receive_next_eq in Hserve.
  assert (Herr1 : (received r1).2 = None) by exact Herr.
  destruct (received r1) as [[message length] err]. cbn [fst snd] in *. subst err.
  rewrite bind_unfold, Hquery in Hserve. cbn [lift] in Hserve.
  rewrite bool_decide_eq_false_2 in Hserve by done.
  rewrite bool_decide_eq_true_2 in Hserve by done.
  apply bind_Ok_inv in Hserve as (s1 & w1 & Hrelay & Hserve).
  apply relay_footprint in Hrelay
    as (s2 & w2 & b & head & io & Hsel & Hb & Hhead & Hio & Hpools' & Hs').
  unfold select in Hsel. cbv zeta in Hsel.
  assert (proxy.fetch_backend (proxy.annotate s (getAnnotations env message)) = true)
    as Hf.
  { unfold proxy.fetch_backend, proxy.annotate. rewrite Hstart.
    cbn [proxy.statementBlock proxy.end_ proxy.cp proxy.backend].
    destruct Hnil as [-> | ->]; [done | by rewrite orb_true_r]. }
  rewrite Hf in Hsel. unfold proxy.annotate in Hsel. rewrite Hstart in Hsel.
  apply fetch_Ok_inv in Hsel
    as (p & others & pl & c & free & _ & Hpl & Hconn & -> & _ & Hheap2 & _).
  cbn [proxy.read proxy.statementBlock proxy.backend proxy.cp proxy.nodeName
       proxy.end_] in *.
  subst c. destruct Hs' as (-> & _ & Hheap1).
  rewrite bind_unfold, Receive_next_eq in Hserve.
  unfold closing in Hclosing.
  assert (Herr2 : rerr r2 = (received r2).2) by reflexivity. rewrite Herr2 in Hclosing.
  destruct (received r2) as [[message2 length2] err2]. cbn [fst snd] in Hclosing.
  assert (Hend : (Ok tt, after_Receive client rest w1) = (Ok tt, w')).
  { destruct err2 as [e|]; [done|]. rewrite bind_unfold in Hserve.
    destruct (protocol.GetMessageType message2) as [ty|e]; [|done].
    cbn [lift] in Hserve. by rewrite Hclosing in Hserve. }
  injection Hend as <-. exists p, pl, b, free.
  split; [exact Hpl|]. split; [done|]. split.
  - unfold after_Receive. cbn [heap set_reads emit]. by rewrite Hheap1, Hheap2.
  - unfold after_Receive. cbn [trace set_reads emit]. by rewrite last_snoc.
Qed.

Lemma session_ended_in_block_keeps_backend_witness :
  ∃ p pl b free,
    heap world0 !! p = Some pl
    ∧ connections pl = Some b :: free
    ∧ heap (proxy.serve env_annotated (Some client1) proxy.Session0 block_script
              world0).2
      = <[p := mkPool (Name pl) free]> (heap world0)
    ∧ last (trace (proxy.serve env_annotated (Some client1) proxy.Session0 block_script
                     world0).2)
      = Some (ERead client1).
Proof.
  apply (session_ended_in_block_keeps_backend env_annotated client1 proxy.Session0
           (mkRead (wire frameStart) None) (mkRead (wire frameX) None) [] world0
           (proxy.serve env_annotated (Some client1) proxy.Session0 block_script world0).2).
  - reflexivity.
  - vm_compute. reflexivity.
  - vm_compute. reflexivity.
  - left. reflexivity.
  - vm_compute. reflexivity.
  - vm_compute. reflexivity.
Defined.
